(** * Rooftop availability matrices of PyPSA-RSA

    A shallow embedding of the notebook
    [pre_processing/resource_processing/prepare_rooftop_solar_pv.ipynb]:
    building footprints are joined to the cells of the climate cutout, the
    building area is summed per cell, and for every bus of every set of
    supply regions the areas of the selected cells are divided by their sum
    and stored in a (bus, y, x) array that is written to one file per set.

    Conventions of the embedding.
    - Geometry is the business of shapely and geopandas: the type of
      geometries and the [within] predicate are parameters, and a building
      comes with the [area] column that geopandas computed from its
      polygon.  An instance with polygons on the integer lattice is used
      for the examples.
    - Cell coordinates (the [x] and [y] columns of [cutout.grid]) are only
      compared for equality and sorted; they are integers here.
    - float64 values are exact rationals extended with NaN and the two
      infinities: the sums and the quotients of the aggregation neither
      round nor overflow here, and what is proved of them is proved of
      exact arithmetic.  An array that holds sums of areas holds a finite
      value or NaN ([option Q], [None] being NaN).  Where rounding or
      overflow decides a property, the sum and the quotient of the
      normalisation are evaluated in IEEE 754 binary64 as well
      ([f64_sum], [quotient64]).
    - The y and x labels of an array are not repeated, as the alignment
      of xarray requires; [unique] and the sorted levels of a group index
      see to that for every array of the run.
    - [gis_data["supply_regions"]], which [load_gis_data] reads from the
      data bundle, is an input: a list of region numbers, each with its
      regions.
    - The directory [availability/], into which the files are written, is
      not created by the notebook; whether it exists is an input of the
      run.
    - The cell that rebinds [bin] was never executed and reads a name the
      notebook does not define; it is not part of the run. *)

From Stdlib Require Import String.
From Stdlib Require Import List ZArith QArith Bool Lia Lqa.
From Stdlib Require Import Sorted Permutation.
From Stdlib Require SpecFloat.
Import ListNotations.

Set Implicit Arguments.

(* ------------------------------------------------------------------ *)
(** * Exceptions and results *)

Inductive exn : Type :=
| KeyError      (* a label handed to [.loc] is not in the index *)
| ValueError    (* values of another shape, or a label an index cannot hold *)
| OSError.      (* a file cannot be created *)

Definition result (A : Type) : Type := (exn + A)%type.

Definition ret {A} (a : A) : result A := inr a.
Definition raise {A} (e : exn) : result A := inl e.
Definition bind {A B} (c : result A) (k : A -> result B) : result B :=
  match c with
  | inl e => inl e
  | inr a => k a
  end.

Notation "x <- c ;; k" := (bind c (fun x => k))
  (at level 61, c at next level, right associativity).

(** A Python [for] loop that threads one object through its body. *)
Fixpoint for_each {A S} (l : list A) (body : S -> A -> result S) (s : S)
  : result S :=
  match l with
  | [] => ret s
  | a :: t => s' <- body s a ;; for_each t body s'
  end.

(* ------------------------------------------------------------------ *)
(** * float64 values *)

Inductive fval : Type :=
| NaN
| Fin (q : Q)
| PInf
| NInf.

(** [notnull]: xarray and pandas treat NaN, and only NaN, as missing. *)
Definition notnull (v : fval) : bool :=
  match v with
  | NaN => false
  | _ => true
  end.

(** True division of a finite-or-NaN entry by a finite scalar: numpy
    raises nothing, [w/0] is an infinity and [0/0] and [NaN/s] are NaN. *)
Definition fdiv (v : option Q) (s : Q) : fval :=
  match v with
  | None => NaN
  | Some w =>
      if Qeq_bool s 0 then
        if Qeq_bool w 0 then NaN
        else if Qle_bool 0 w then PInf else NInf
      else Fin (w / s)
  end.

(** Equality of float64 values up to the representation of the rational. *)
Definition feq (u v : fval) : Prop :=
  match u, v with
  | NaN, NaN => True
  | Fin a, Fin b => a == b
  | PInf, PInf => True
  | NInf, NInf => True
  | _, _ => False
  end.


Fixpoint Qsum (l : list Q) : Q :=
  match l with
  | [] => 0
  | q :: t => q + Qsum t
  end.

Definition nan_to_zero (v : option Q) : Q :=
  match v with
  | Some q => q
  | None => 0
  end.

(** The finite part of a value, for sums that skip what is not defined. *)
Definition fin_part (v : fval) : Q :=
  match v with
  | Fin q => q
  | _ => 0
  end.

(* ------------------------------------------------------------------ *)
(** * The normalisation in binary64

    float64 is IEEE 754 binary64: 53 bits of precision, exponents below
    1024, results rounded to the nearest value, ties to even. *)







(* ------------------------------------------------------------------ *)
(** * Index helpers *)

Definition mem (z : Z) (l : list Z) : bool := existsb (Z.eqb z) l.

(** [Series.unique()]: the distinct values in order of first appearance. *)
Fixpoint unique (l : list Z) : list Z :=
  match l with
  | [] => []
  | a :: t => a :: filter (fun z => negb (Z.eqb z a)) (unique t)
  end.

(** Sorted distinct values, as [groupby] and the levels of a MultiIndex
    have them. *)
Section SortUnique.
Variable A : Type.
Variable cmp : A -> A -> comparison.

Fixpoint insert_unique (a : A) (l : list A) : list A :=
  match l with
  | [] => [a]
  | b :: t =>
      match cmp a b with
      | Lt => a :: b :: t
      | Eq => b :: t
      | Gt => b :: insert_unique a t
      end
  end.

Definition sort_unique (l : list A) : list A :=
  fold_right insert_unique [] l.
End SortUnique.

Definition key_compare (k1 k2 : Z * Z) : comparison :=
  match Z.compare (fst k1) (fst k2) with
  | Eq => Z.compare (snd k1) (snd k2)
  | c => c
  end.

Definition key_eqb (k1 k2 : Z * Z) : bool :=
  Z.eqb (fst k1) (fst k2) && Z.eqb (snd k1) (snd k2).

Fixpoint index_of (z : Z) (l : list Z) : option nat :=
  match l with
  | [] => None
  | a :: t => if Z.eqb z a then Some O
              else option_map S (index_of z t)
  end.

Fixpoint index_of_str (s : string) (l : list string) : option nat :=
  match l with
  | [] => None
  | a :: t => if String.eqb s a then Some O
              else option_map S (index_of_str s t)
  end.

(* ------------------------------------------------------------------ *)
(** * Labelled two-dimensional arrays, dims (y, x) *)

Section DataArray.
Variable V : Type.

Record DataArray : Type := mkDA {
  da_y : list Z;
  da_x : list Z;
  da_values : list (list V)   (* one row per label of [da_y] *)
}.

(** The dense array over [ys] x [xs] whose entry at (y, x) is [f y x]. *)
Definition tabulate (ys xs : list Z) (f : Z -> Z -> V) : DataArray :=
  mkDA ys xs (map (fun y => map (fun x => f y x) xs) ys).

(** Label-based lookup, [a.sel(y=y, x=x)]. *)
Definition da_sel (a : DataArray) (y x : Z) : option V :=
  match index_of y (da_y a), index_of x (da_x a) with
  | Some i, Some j =>
      match nth_error (da_values a) i with
      | Some row => nth_error row j
      | None => None
      end
  | _, _ => None
  end.
End DataArray.

Arguments mkDA {V} _ _ _.
Arguments tabulate {V} _ _ _.
Arguments da_sel {V} _ _ _.

Definition da_map {U V} (f : U -> V) (a : DataArray U) : DataArray V :=
  mkDA (da_y a) (da_x a) (map (map f) (da_values a)).

(** Entry of an area array at a label pair; NaN off the coordinates. *)
Definition da_get (a : DataArray (option Q)) (y x : Z) : option Q :=
  match da_sel a y x with
  | Some v => v
  | None => None
  end.

Definition cond_at (c : DataArray bool) (y x : Z) : bool :=
  match da_sel c y x with
  | Some b => b
  | None => false
  end.

(** [a.sum()] on floats skips NaN. *)
Definition da_sum (a : DataArray (option Q)) : Q :=
  Qsum (map nan_to_zero (concat (da_values a))).

(** [a / s] for a scalar [s]. *)
Definition da_div (a : DataArray (option Q)) (s : Q) : DataArray fval :=
  da_map (fun v => fdiv v s) a.

(** [coord.isin(values)]: a one-dimensional boolean array over [coord]. *)
Definition isin (coord values : list Z) : list (Z * bool) :=
  map (fun c => (c, mem c values)) coord.

(** [mx & my] for a mask over x and a mask over y: they broadcast against
    each other to a two-dimensional mask. *)
Definition mask_and (mx my : list (Z * bool)) : DataArray bool :=
  mkDA (map fst my) (map fst mx)
       (map (fun py => map (fun px => snd px && snd py) mx) my).

(** [a.where(cond, drop=True)].  xarray first aligns [a] and [cond] on the
    labels they share, then keeps along each dimension the labels at which
    [cond] holds for some label of the other dimension, and finally blanks
    the entries at which [cond] is false.  The alignment is defined for
    arrays without repeated labels, which is what this function is used
    on. *)
Definition where_drop (a : DataArray (option Q)) (cond : DataArray bool)
  : DataArray (option Q) :=
  let ys := filter (fun y => mem y (da_y cond)) (da_y a) in
  let xs := filter (fun x => mem x (da_x cond)) (da_x a) in
  let ys' := filter (fun y => existsb (fun x => cond_at cond y x) xs) ys in
  let xs' := filter (fun x => existsb (fun y => cond_at cond y x) ys) xs in
  tabulate ys' xs' (fun y x => if cond_at cond y x then da_get a y x else None).

(* ------------------------------------------------------------------ *)
(** * The availability matrix, dims (bus, y, x) *)

Record Matrix : Type := mkMatrix {
  m_bus : list string;
  m_y : list Z;
  m_x : list Z;
  m_values : list (list (list fval))   (* one (y, x) slice per bus *)
}.

(** [xr.DataArray(coords=..., dims=["bus","y","x"])] without data: every
    entry starts as NaN. *)
Definition empty_matrix (bus : list string) (ys xs : list Z) : Matrix :=
  mkMatrix bus ys xs
    (map (fun _ => map (fun _ => map (fun _ => NaN) xs) ys) bus).

Definition value_at (vals : list (list fval)) (i j : nat) : option fval :=
  match nth_error vals i with
  | Some row => nth_error row j
  | None => None
  end.

(** Label-based lookup in the matrix. *)
Definition m_sel (m : Matrix) (bus : string) (y x : Z) : option fval :=
  match index_of_str bus (m_bus m), index_of y (m_y m), index_of x (m_x m) with
  | Some k, Some i, Some j =>
      match nth_error (m_values m) k with
      | Some slice => value_at slice i j
      | None => None
      end
  | _, _, _ => None
  end.

(** The (y, x) slice of a bus. *)
Definition m_slice (m : Matrix) (bus : string) : option (list (list fval)) :=
  match index_of_str bus (m_bus m) with
  | Some k => nth_error (m_values m) k
  | None => None
  end.

Definition mem_str (s : string) (l : list string) : bool :=
  existsb (String.eqb s) l.

Definition shape_ok (vals : list (list fval)) (ny nx : nat) : bool :=
  Nat.eqb (List.length vals) ny
  && forallb (fun row => Nat.eqb (List.length row) nx) vals.

(** [m.loc[dict(bus=bus, x=xs, y=ys)] = vals]: the labels index the slice
    of [bus] orthogonally and [vals] has dims (y, x).  An index without
    entries is an index of floats, which cannot look up the name of a bus:
    a [ValueError].  A label that is not in the index is a [KeyError],
    values of another shape a [ValueError]. *)
Definition loc_assign (m : Matrix) (bus : string) (ys xs : list Z)
  (vals : list (list fval)) : result Matrix :=
  if Nat.eqb (List.length (m_bus m)) 0
  then raise ValueError
  else if negb (mem_str bus (m_bus m)
           && forallb (fun y => mem y (m_y m)) ys
           && forallb (fun x => mem x (m_x m)) xs)
  then raise KeyError
  else if negb (shape_ok vals (List.length ys) (List.length xs))
  then raise ValueError
  else
    ret (mkMatrix (m_bus m) (m_y m) (m_x m)
      (map (fun bs =>
         if String.eqb (fst bs) bus then
           map (fun yr =>
             map (fun xo =>
               match index_of (fst yr) ys, index_of (fst xo) xs with
               | Some i, Some j =>
                   match value_at vals i j with
                   | Some v => v
                   | None => snd xo
                   end
               | _, _ => snd xo
               end) (combine (m_x m) (snd yr)))
             (combine (m_y m) (snd bs))
         else snd bs)
         (combine (m_bus m) (m_values m)))).

(** What one run of the loop leaves behind: the printed region numbers and
    the files written, one matrix per region number. *)
Record Output : Type := mkOutput {
  printed : list Z;
  files : list (Z * Matrix)
}.

(** [m.to_netcdf(f"availability/rooftop_availability_matrix_{region_num}.nc")]:
    the file is added to the files written, unless its directory is
    missing. *)
Definition to_netcdf (availability_dir : bool) (written : list (Z * Matrix))
  (region_num : Z) (m : Matrix) : result (list (Z * Matrix)) :=
  if availability_dir
  then ret (written ++ [(region_num, m)])
  else raise OSError.

(* ------------------------------------------------------------------ *)
(** * The aggregation *)

Section Aggregator.
Variable geom : Type.
(** [within a b]: shapely's predicate, [a] lies wholly inside [b]. *)
Variable within : geom -> geom -> bool.

(** A row of [buildings] once the [area] column has been added. *)
Record Building : Type := mkBuilding {
  b_geometry : geom;
  b_area : Q
}.

(** A row of [cutout.grid]; the geometry is the reprojected cell. *)
Record GridCell : Type := mkCell {
  g_x : Z;
  g_y : Z;
  g_geometry : geom
}.

(** A row of one entry of [gis_data["supply_regions"]]. *)
Record Region : Type := mkRegion {
  r_name : string;
  r_geometry : geom
}.

(** [gpd.sjoin(left, right, op="within")], an inner join: one row for
    every pair whose left geometry is within the right one. *)
Definition sjoin {L R : Type} (gl : L -> geom) (gr : R -> geom)
  (left : list L) (right : list R) : list (L * R) :=
  flat_map (fun a =>
    map (pair a) (filter (fun b => within (gl a) (gr b)) right)) left.

Definition buildings_in_cells (buildings : list Building)
  (grid : list GridCell) : list (Building * GridCell) :=
  sjoin b_geometry g_geometry buildings grid.

Definition row_key (r : Building * GridCell) : Z * Z :=
  (g_y (snd r), g_x (snd r)).

(** [rows.groupby(["y","x"]).sum()["area"]]: a series indexed by the
    sorted distinct (y, x) keys of the rows. *)
Definition groupby_sum_area (rows : list (Building * GridCell))
  : list ((Z * Z) * Q) :=
  map (fun k =>
         (k, Qsum (map (fun r => b_area (fst r))
                       (filter (fun r => key_eqb (row_key r) k) rows))))
      (sort_unique key_compare (map row_key rows)).

Definition lookup_key (k : Z * Z) (s : list ((Z * Z) * Q)) : option Q :=
  match find (fun e => key_eqb (fst e) k) s with
  | Some e => Some (snd e)
  | None => None
  end.

(** [series.to_xarray()]: dense over the levels of the index, NaN at the
    level combinations the series does not have. *)
Definition to_xarray (s : list ((Z * Z) * Q)) : DataArray (option Q) :=
  tabulate (sort_unique Z.compare (map (fun e => fst (fst e)) s))
           (sort_unique Z.compare (map (fun e => snd (fst e)) s))
           (fun y x => lookup_key (y, x) s).

Definition building_area_in_cell (buildings : list Building)
  (grid : list GridCell) : DataArray (option Q) :=
  to_xarray (groupby_sum_area (buildings_in_cells buildings grid)).

(** [gpd.sjoin(grid, regions, op="within")[["x", "y", "name"]]]. *)
Definition map_cell_to_region (grid : list GridCell)
  (regions : list Region) : list (Z * Z * string) :=
  map (fun r => (g_x (fst r), g_y (fst r), r_name (snd r)))
      (sjoin g_geometry r_geometry grid regions).

(** [map_cell_to_region[map_cell_to_region["name"] == bus][["x","y"]]]. *)
Definition cell_list (cells : list (Z * Z * string)) (bus : string)
  : list (Z * Z) :=
  map fst (filter (fun t => String.eqb (snd t) bus) cells).

Definition bus_mask (m : Matrix) (cl : list (Z * Z)) : DataArray bool :=
  mask_and (isin (m_x m) (map fst cl)) (isin (m_y m) (map snd cl)).

(** The body of [for bus in bus_list]. *)
Definition assign_bus (area : DataArray (option Q))
  (cells : list (Z * Z * string)) (m : Matrix) (bus : string)
  : result Matrix :=
  let cl := cell_list cells bus in
  let mask := bus_mask m cl in
  let selected_data := where_drop area mask in
  loc_assign m bus (da_y selected_data) (da_x selected_data)
    (da_values (da_div selected_data (da_sum selected_data))).

(** The body of [for region_num in ...] up to the matrix it writes. *)
Definition region_matrix (area : DataArray (option Q))
  (grid : list GridCell) (regions : list Region) : result Matrix :=
  let bus_list := map r_name regions in
  let cells := map_cell_to_region grid regions in
  let availability_matrix :=
    empty_matrix bus_list (unique (map g_y grid)) (unique (map g_x grid)) in
  for_each bus_list (assign_bus area cells) availability_matrix.

(** The aggregation for one set of zones, from the three inputs. *)
Definition computeZoneAvailability (buildings : list Building)
  (grid : list GridCell) (regions : list Region) : result Matrix :=
  region_matrix (building_area_in_cell buildings grid) grid regions.

(** The notebook from the join of the buildings to the last file.  The
    files go into the directory [availability/]; [availability_dir] tells
    whether that directory exists. *)
Definition notebook_run (availability_dir : bool)
  (buildings : list Building) (grid : list GridCell)
  (supply_regions : list (Z * list Region)) : result Output :=
  let area := building_area_in_cell buildings grid in
  for_each supply_regions
    (fun out entry =>
       let region_num := fst entry in
       let out := mkOutput (printed out ++ [region_num]) (files out) in
       m <- region_matrix area grid (snd entry) ;;
       written <- to_netcdf availability_dir (files out) region_num m ;;
       ret (mkOutput (printed out) written))
    (mkOutput [] []).
End Aggregator.

Arguments b_geometry {geom} _.
Arguments b_area {geom} _.
Arguments g_x {geom} _.
Arguments g_y {geom} _.
Arguments g_geometry {geom} _.
Arguments r_name {geom} _.
Arguments r_geometry {geom} _.
Arguments row_key {geom} _.

(* ------------------------------------------------------------------ *)
(** * Quantities the properties are stated with *)

(** The matrix whose entry at (b, y, x) is [G b y x]. *)
Definition tab3 (B : list string) (Y X : list Z)
  (G : string -> Z -> Z -> fval) : Matrix :=
  mkMatrix B Y X (map (fun b => map (fun y => map (fun x => G b y x) X) Y) B).

(** [selected_data] of a bus, for a matrix with coordinates [Y] and [X]. *)
Definition selected_for (area : DataArray (option Q)) (Y X : list Z)
  (cells : list (Z * Z * string)) (bus : string) : DataArray (option Q) :=
  where_drop area
    (mask_and (isin X (map fst (cell_list cells bus)))
              (isin Y (map snd (cell_list cells bus)))).

(** The entry the loop leaves at (bus, y, x). *)
Definition entry (area : DataArray (option Q)) (Y X : list Z)
  (cells : list (Z * Z * string)) (bus : string) (y x : Z) : fval :=
  let sd := selected_for area Y X cells bus in
  if mem y (da_y sd) && mem x (da_x sd)
  then fdiv (da_get area y x) (da_sum sd)
  else NaN.

Definition cell_key {geom : Type} (c : GridCell geom) : Z * Z :=
  (g_y c, g_x c).

(** The joined rows that fall on one (y, x) key, and their area. *)
Definition rows_at {geom : Type} (rows : list (Building geom * GridCell geom))
  (k : Z * Z) : list (Building geom * GridCell geom) :=
  filter (fun r => key_eqb (row_key r) k) rows.

Definition has_key {geom : Type} (rows : list (Building geom * GridCell geom))
  (k : Z * Z) : bool :=
  existsb (fun r => key_eqb (row_key r) k) rows.

Definition weight_at {geom : Type} (rows : list (Building geom * GridCell geom))
  (k : Z * Z) : Q :=
  Qsum (map (fun r => b_area (fst r)) (rows_at rows k)).

(** The weight a cell index carries: the summed building area, zero
    where the area array has no value. *)
Definition cell_weight {geom : Type} (within : geom -> geom -> bool)
  (buildings : list (Building geom)) (grid : list (GridCell geom))
  (y x : Z) : Q :=
  nan_to_zero (da_get (building_area_in_cell within buildings grid) y x).

(** The member cells of a zone, as (x, y) pairs, and their total weight. *)
Definition member_cells {geom : Type} (within : geom -> geom -> bool)
  (grid : list (GridCell geom)) (regions : list (Region geom))
  (bus : string) : list (Z * Z) :=
  cell_list (map_cell_to_region within grid regions) bus.

Definition member_weight {geom : Type} (within : geom -> geom -> bool)
  (buildings : list (Building geom)) (grid : list (GridCell geom))
  (regions : list (Region geom)) (bus : string) : Q :=
  Qsum (map (fun c => cell_weight within buildings grid (snd c) (fst c))
            (member_cells within grid regions bus)).

(** The selection of a bus in terms of the three inputs. *)
Definition selected_data_of {geom : Type} (within : geom -> geom -> bool)
  (buildings : list (Building geom)) (grid : list (GridCell geom))
  (regions : list (Region geom)) (bus : string) : DataArray (option Q) :=
  selected_for (building_area_in_cell within buildings grid)
    (unique (map g_y grid)) (unique (map g_x grid))
    (map_cell_to_region within grid regions) bus.

(** The values of a slice that are not missing. *)
Definition defined_values (slice : list (list fval)) : list fval :=
  filter notnull (concat slice).


(** The mask the loop builds for a bus. *)
Definition mask_of {geom : Type} (within : geom -> geom -> bool)
  (grid : list (GridCell geom)) (regions : list (Region geom))
  (bus : string) : DataArray bool :=
  bus_mask
    (empty_matrix (map r_name regions)
       (unique (map g_y grid)) (unique (map g_x grid)))
    (member_cells within grid regions bus).

(** A set of (x, y) pairs is a full rectangle when it holds every
    combination of an x and a y that occur in it. *)
Definition full_rectangle (mc : list (Z * Z)) : Prop :=
  forall x y, In x (map fst mc) -> In y (map snd mc) -> In (x, y) mc.

(** The grid cells a feature is joined to. *)
Definition assigned_cells {geom : Type} (within : geom -> geom -> bool)
  (b : Building geom) (grid : list (GridCell geom)) : list (GridCell geom) :=
  filter (fun c => within (b_geometry b) (g_geometry c)) grid.



(** A cell at (x, y) as an (x, y) pair reads the matrix at [y], [x]. *)
Definition matrix_at (m : Matrix) (bus : string) (c : Z * Z) : option fval :=
  m_sel m bus (snd c) (fst c).

(* ------------------------------------------------------------------ *)
(** * An instance of the geometry: rectilinear polygons on a lattice

    A polygon whose edges run along the lines of the integer lattice is the
    union of the closed unit squares it covers; it is given by the list of
    the lower-left corners of these squares. *)

Definition shape : Type := list (Z * Z).

(** A union of unit squares lies wholly inside another one exactly when it
    is not empty and each of its squares is a square of the other. *)
Definition shape_within (a b : shape) : bool :=
  negb (Nat.eqb (List.length a) 0)
  && forallb (fun s => existsb (key_eqb s) b) a.

(** Two shapes intersect when they share a square. *)
Definition shape_intersects (a b : shape) : bool :=
  existsb (fun s => existsb (key_eqb s) b) a.

(** The [w] by [h] squares whose lower-left corner is (x0, y0). *)
Definition squares (x0 y0 : Z) (w h : nat) : shape :=
  flat_map (fun i => map (fun j => (x0 + Z.of_nat i, y0 + Z.of_nat j)%Z)
                         (seq 0 h)) (seq 0 w).

(** Grid cell (x, y): a block of two by two unit squares. *)
Definition cell (x y : Z) : GridCell shape :=
  mkCell x y (squares (2 * x) (2 * y) 2 2).

Definition grid4 : list (GridCell shape) :=
  [cell 0 0; cell 0 1; cell 1 0; cell 1 1].

(** A unit square stands for 10 units of area. *)
Definition building (s : shape) : Building shape :=
  mkBuilding s (inject_Z (10 * Z.of_nat (List.length s))).

(** Zone Z1 covers the cells (0,0) and (0,1); one building of weight 10
    stands in cell (0,0) and one of weight 30 in cell (0,1). *)
Definition zone_Z1 : list (Region shape) :=
  [mkRegion "Z1" (squares 0 0 2 4)].

Definition features_10_30 : list (Building shape) :=
  [building [(0, 0)%Z]; building [(0, 2); (1, 2); (1, 3)]%Z].

(** An L-shaped zone over the cells (0,0), (0,1) and (1,1), next to a zone
    R that is the cell (1,0). *)
Definition zones_L_R : list (Region shape) :=
  [mkRegion "L" (squares 0 0 2 4 ++ squares 2 2 2 2);
   mkRegion "R" (squares 2 0 2 2)].

(** One building in each of the cells (0,0), (1,0) and (1,1). *)
Definition features_three : list (Building shape) :=
  [building [(0, 0)%Z]; building [(2, 0)%Z]; building [(3, 3)%Z]].

Definition grid3 : list (GridCell shape) := [cell 0 0; cell 1 0; cell 2 0].

(** Two zones that meet in the middle of cell (1,0). *)
Definition zones_W_E : list (Region shape) :=
  [mkRegion "W" (squares 0 0 3 2); mkRegion "E" (squares 3 0 3 2)].

(** A building three squares long that lies across the cells (0,0) and
    (1,0), most of it in (0,0). *)
Definition long_building : Building shape :=
  building [(0, 0); (1, 0); (2, 0)]%Z.

(** A zone that lies off the grid, and a zone that is the cell (1,0). *)
Definition zone_off_grid : list (Region shape) :=
  [mkRegion "Z2" (squares 10 10 2 2)].

Definition zone_Z2 : list (Region shape) :=
  [mkRegion "Z2" (squares 2 0 2 2)].

(** A zone that is the cell (0,0), with one building in each of the cells
    above it and beside it and none in the zone. *)
Definition zone_cell00 : list (Region shape) :=
  [mkRegion "Z" (squares 0 0 2 2)].

Definition features_around : list (Building shape) :=
  [building [(0, 2)%Z]; building [(2, 0)%Z]].

(** A zone Z1 with a single building, in cell (0,0). *)
Definition features_one : list (Building shape) := [building [(0, 0)%Z]].





(* ------------------------------------------------------------------ *)
(** * Quantities for the properties of the loop and of the joins *)

(** The same footprint with its weight multiplied by [k]. *)
Definition scale_area {geom : Type} (k : Q) (b : Building geom)
  : Building geom :=
  mkBuilding (b_geometry b) (k * b_area b).

(** A building that lies within some cell of the grid. *)
Definition joined_somewhere {geom : Type} (within : geom -> geom -> bool)
  (grid : list (GridCell geom)) (b : Building geom) : bool :=
  existsb (fun c => within (b_geometry b) (g_geometry c)) grid.

(** Two lookups that agree: both off the index, or the same value. *)
Definition same_entry (u v : option fval) : Prop :=
  match u, v with
  | Some a, Some b => feq a b
  | None, None => True
  | _, _ => False
  end.

(** Two entries of area arrays of which the second is [k] times the
    first: both NaN, or finite with that ratio. *)
Definition scaled (k : Q) (u v : option Q) : Prop :=
  match u, v with
  | Some w, Some w' => w' == k * w
  | None, None => True
  | _, _ => False
  end.

Unset Implicit Arguments.

(* ------------------------------------------------------------------ *)
(** * Lemmas on indexes *)

Lemma mem_In (z : Z) (l : list Z) : mem z l = true <-> In z l.
Proof.
  unfold mem. rewrite existsb_exists. split.
  - intros [a [Ha Hz]]. apply Z.eqb_eq in Hz. now subst.
  - intros H. exists z. split; [assumption | apply Z.eqb_refl].
Qed.

Lemma mem_false (z : Z) (l : list Z) : mem z l = false <-> ~ In z l.
Proof.
  rewrite <- mem_In. destruct (mem z l); split; congruence.
Qed.

Lemma mem_str_In (s : string) (l : list string) :
  mem_str s l = true <-> In s l.
Proof.
  unfold mem_str. rewrite existsb_exists. split.
  - intros [a [Ha Hs]]. apply String.eqb_eq in Hs. now subst.
  - intros H. exists s. split; [assumption | apply String.eqb_refl].
Qed.

Lemma unique_In (z : Z) (l : list Z) : In z (unique l) <-> In z l.
Proof.
  induction l as [|a t IH]; simpl; [tauto|].
  rewrite filter_In, IH, negb_true_iff, Z.eqb_neq.
  destruct (Z.eq_dec a z); intuition congruence.
Qed.

Lemma NoDup_unique (l : list Z) : NoDup (unique l).
Proof.
  induction l as [|a t IH]; simpl; constructor.
  - rewrite filter_In, negb_true_iff, Z.eqb_neq. tauto.
  - now apply NoDup_filter.
Qed.

Section SortUniqueFacts.
Variable A : Type.
Variable cmp : A -> A -> comparison.
Hypothesis cmp_eq : forall a b, cmp a b = Eq -> a = b.

Lemma insert_unique_In (a z : A) (l : list A) :
  In z (insert_unique cmp a l) <-> z = a \/ In z l.
Proof.
  induction l as [|b t IH]; simpl.
  - intuition.
  - destruct (cmp a b) eqn:E; simpl.
    + apply cmp_eq in E. subst. intuition.
    + intuition.
    + rewrite IH. intuition.
Qed.

Lemma sort_unique_In (z : A) (l : list A) :
  In z (sort_unique cmp l) <-> In z l.
Proof.
  induction l as [|a t IH]; simpl; [tauto|].
  rewrite insert_unique_In, IH. intuition.
Qed.
End SortUniqueFacts.

Lemma key_compare_eq (a b : Z * Z) : key_compare a b = Eq -> a = b.
Proof.
  destruct a as [a1 a2], b as [b1 b2]. unfold key_compare. simpl.
  destruct (Z.compare a1 b1) eqn:E1; try discriminate.
  intros E2. apply Z.compare_eq in E1, E2. congruence.
Qed.

Lemma key_eqb_eq (a b : Z * Z) : key_eqb a b = true <-> a = b.
Proof.
  destruct a as [a1 a2], b as [b1 b2]. unfold key_eqb. simpl.
  rewrite andb_true_iff, !Z.eqb_eq. split; [intros []|intros [=]]; subst; auto.
Qed.

Lemma sortZ_In (z : Z) (l : list Z) :
  In z (sort_unique Z.compare l) <-> In z l.
Proof. apply sort_unique_In. exact Z.compare_eq. Qed.

Lemma sortK_In (k : Z * Z) (l : list (Z * Z)) :
  In k (sort_unique key_compare l) <-> In k l.
Proof. apply sort_unique_In. exact key_compare_eq. Qed.

Lemma insert_unique_lower (a b : Z) (l : list Z) :
  (b < a)%Z -> Forall (Z.lt b) l -> Forall (Z.lt b) (insert_unique Z.compare a l).
Proof.
  intros Hba Hl. apply Forall_forall. intros z Hz.
  apply insert_unique_In in Hz; [|exact Z.compare_eq].
  destruct Hz as [->|Hz]; [assumption|].
  rewrite Forall_forall in Hl. now apply Hl.
Qed.

Lemma insert_unique_sorted (a : Z) (l : list Z) :
  StronglySorted Z.lt l -> StronglySorted Z.lt (insert_unique Z.compare a l).
Proof.
  induction 1 as [|b t Ht IH Hb]; simpl.
  - repeat constructor.
  - destruct (Z.compare a b) eqn:E.
    + now constructor.
    + change (a < b)%Z in E. constructor; [now constructor|].
      constructor; [assumption|].
      eapply Forall_impl; [|exact Hb]. simpl. intros z Hz. lia.
    + apply Z.compare_gt_iff in E. constructor; [exact IH|].
      now apply insert_unique_lower.
Qed.

Lemma sortZ_sorted (l : list Z) : StronglySorted Z.lt (sort_unique Z.compare l).
Proof.
  induction l as [|a t IH]; simpl; [constructor|].
  now apply insert_unique_sorted.
Qed.

Lemma sorted_NoDup (l : list Z) : StronglySorted Z.lt l -> NoDup l.
Proof.
  induction 1 as [|b t Ht IH Hb]; constructor; [|assumption].
  intros Hin. rewrite Forall_forall in Hb. specialize (Hb _ Hin). lia.
Qed.

Lemma NoDup_sortZ (l : list Z) : NoDup (sort_unique Z.compare l).
Proof. apply sorted_NoDup, sortZ_sorted. Qed.

Lemma index_of_Some (z : Z) (l : list Z) (i : nat) :
  index_of z l = Some i -> nth_error l i = Some z.
Proof.
  revert i. induction l as [|a t IH]; simpl; intros i H; [discriminate|].
  destruct (Z.eqb z a) eqn:E.
  - apply Z.eqb_eq in E. injection H as <-. now subst.
  - destruct (index_of z t) as [j|]; [|discriminate].
    injection H as <-. simpl. now apply IH.
Qed.

Lemma index_of_mem (z : Z) (l : list Z) :
  mem z l = true -> exists i, index_of z l = Some i.
Proof.
  induction l as [|a t IH]; simpl; [discriminate|].
  destruct (Z.eqb z a); simpl; intros H.
  - now exists O.
  - destruct (IH H) as [i ->]. now exists (S i).
Qed.

Lemma index_of_None (z : Z) (l : list Z) :
  mem z l = false -> index_of z l = None.
Proof.
  induction l as [|a t IH]; simpl; [reflexivity|].
  destruct (Z.eqb z a); simpl; [discriminate|].
  intros H. now rewrite (IH H).
Qed.

Lemma index_of_str_Some (s : string) (l : list string) (i : nat) :
  index_of_str s l = Some i -> nth_error l i = Some s.
Proof.
  revert i. induction l as [|a t IH]; simpl; intros i H; [discriminate|].
  destruct (String.eqb s a) eqn:E.
  - apply String.eqb_eq in E. injection H as <-. now subst.
  - destruct (index_of_str s t) as [j|]; [|discriminate].
    injection H as <-. simpl. now apply IH.
Qed.

Lemma index_of_str_mem (s : string) (l : list string) :
  mem_str s l = true -> exists i, index_of_str s l = Some i.
Proof.
  induction l as [|a t IH]; simpl; [discriminate|].
  destruct (String.eqb s a); simpl; intros H.
  - now exists O.
  - destruct (IH H) as [i ->]. now exists (S i).
Qed.

(** Reading a dense array back by label. *)
Lemma da_sel_tabulate (V : Type) (ys xs : list Z) (f : Z -> Z -> V) (y x : Z) :
  da_sel (tabulate ys xs f) y x =
  if mem y ys && mem x xs then Some (f y x) else None.
Proof.
  unfold da_sel, tabulate. simpl.
  destruct (mem y ys) eqn:Hy.
  - destruct (index_of_mem _ _ Hy) as [i Hi]. rewrite Hi.
    destruct (mem x xs) eqn:Hx; simpl.
    + destruct (index_of_mem _ _ Hx) as [j Hj]. rewrite Hj.
      apply index_of_Some in Hi, Hj.
      rewrite (map_nth_error _ _ _ Hi). now rewrite (map_nth_error _ _ _ Hj).
    + now rewrite (index_of_None _ _ Hx).
  - now rewrite (index_of_None _ _ Hy).
Qed.

(* ------------------------------------------------------------------ *)
(** * Lemmas on sums *)

Lemma Qsum_app (l1 l2 : list Q) : Qsum (l1 ++ l2) == Qsum l1 + Qsum l2.
Proof.
  induction l1 as [|q t IH]; simpl.
  - ring.
  - rewrite IH. ring.
Qed.

Section SumOver.
Variable A : Type.

Lemma Qsum_ext (f g : A -> Q) (l : list A) :
  (forall a, In a l -> f a == g a) -> Qsum (map f l) == Qsum (map g l).
Proof.
  induction l as [|a t IH]; simpl; intros H; [reflexivity|].
  rewrite IH by (intros; apply H; now right).
  rewrite (H a) by now left. reflexivity.
Qed.

Lemma Qsum_zero (f : A -> Q) (l : list A) :
  (forall a, In a l -> f a == 0) -> Qsum (map f l) == 0.
Proof.
  induction l as [|a t IH]; simpl; intros H; [reflexivity|].
  rewrite IH by (intros; apply H; now right).
  rewrite (H a) by now left. ring.
Qed.

Lemma Qsum_plus (f g : A -> Q) (l : list A) :
  Qsum (map (fun a => f a + g a) l) == Qsum (map f l) + Qsum (map g l).
Proof.
  induction l as [|a t IH]; simpl; [ring|].
  rewrite IH. ring.
Qed.

Lemma Qsum_scale (f : A -> Q) (c : Q) (l : list A) :
  Qsum (map (fun a => f a * c) l) == Qsum (map f l) * c.
Proof.
  induction l as [|a t IH]; simpl; [ring|].
  rewrite IH. ring.
Qed.

Lemma Qsum_nonneg (f : A -> Q) (l : list A) :
  (forall a, In a l -> 0 <= f a) -> 0 <= Qsum (map f l).
Proof.
  induction l as [|a t IH]; simpl; intros H; [apply Qle_refl|].
  assert (0 <= f a) by (apply H; now left).
  assert (0 <= Qsum (map f t)) by (apply IH; intros; apply H; now right).
  lra.
Qed.

Lemma Qsum_ge_term (f : A -> Q) (l : list A) (a : A) :
  (forall b, In b l -> 0 <= f b) -> In a l -> f a <= Qsum (map f l).
Proof.
  induction l as [|b t IH]; simpl; intros H Hin; [contradiction|].
  assert (0 <= f b) by (apply H; now left).
  assert (0 <= Qsum (map f t)) by (apply Qsum_nonneg; intros; apply H; now right).
  destruct Hin as [->|Hin].
  - lra.
  - assert (f a <= Qsum (map f t)) by (apply IH; auto). lra.
Qed.

End SumOver.

(** A sum over a duplicate-free index in which one label alone counts. *)
Lemma Qsum_single (f : Z -> Q) (c : Z) (l : list Z) :
  NoDup l -> In c l ->
  Qsum (map (fun a => if Z.eqb a c then f a else 0) l) == f c.
Proof.
  induction 1 as [|a t Ha Ht IH]; simpl; intros Hin; [contradiction|].
  destruct (Z.eqb a c) eqn:E.
  - apply Z.eqb_eq in E. subst a.
    rewrite Qsum_zero; [ring|].
    intros b Hb. destruct (Z.eqb b c) eqn:E'; [|reflexivity].
    apply Z.eqb_eq in E'. subst. contradiction.
  - apply Z.eqb_neq in E. destruct Hin as [->|Hin]; [congruence|].
    rewrite IH by assumption. ring.
Qed.

(** A sum over an index restricted to the labels of a sub-index. *)
Lemma Qsum_restrict (f : Z -> Q) (l l' : list Z) :
  NoDup l -> NoDup l' -> incl l' l ->
  Qsum (map (fun a => if mem a l' then f a else 0) l) == Qsum (map f l').
Proof.
  intros Hl Hl' Hincl. induction Hl' as [|b t Hb Ht IH]; simpl.
  - apply Qsum_zero. reflexivity.
  - rewrite <- IH by (intros z Hz; apply Hincl; now right).
    rewrite <- (@Qsum_single f b l Hl (Hincl b (or_introl eq_refl))).
    rewrite <- Qsum_plus. apply Qsum_ext. intros a _.
    unfold mem at 1. simpl. fold (mem a t).
    destruct (Z.eqb a b) eqn:E; simpl.
    + apply Z.eqb_eq in E. subst.
      apply mem_false in Hb. rewrite Hb. ring.
    + destruct (mem a t); ring.
Qed.

(** Entries of a dense table, summed row by row. *)
Lemma Qsum_table (V : Type) (g : V -> Q) (f : Z -> Z -> V) (ys xs : list Z) :
  Qsum (map g (concat (map (fun y => map (fun x => f y x) xs) ys))) ==
  Qsum (map (fun y => Qsum (map (fun x => g (f y x)) xs)) ys).
Proof.
  induction ys as [|y t IH]; simpl; [reflexivity|].
  rewrite map_app, Qsum_app, IH, map_map. reflexivity.
Qed.

(* ------------------------------------------------------------------ *)
(** * Masks and selections *)

Lemma da_map_tabulate (U V : Type) (g : U -> V) (ys xs : list Z)
  (f : Z -> Z -> U) :
  da_map g (tabulate ys xs f) = tabulate ys xs (fun y x => g (f y x)).
Proof.
  unfold da_map, tabulate. simpl. f_equal.
  rewrite map_map. apply map_ext. intros y. now rewrite map_map.
Qed.

Lemma mask_and_isin (xs vx ys vy : list Z) :
  mask_and (isin xs vx) (isin ys vy) =
  tabulate ys xs (fun y x => mem x vx && mem y vy).
Proof.
  unfold mask_and, isin, tabulate. rewrite !map_map. simpl.
  rewrite !map_id. f_equal. apply map_ext. intros y. now rewrite map_map.
Qed.

Lemma cond_at_mask (xs vx ys vy : list Z) (y x : Z) :
  cond_at (mask_and (isin xs vx) (isin ys vy)) y x =
  mem y ys && mem x xs && (mem x vx && mem y vy).
Proof.
  unfold cond_at. rewrite mask_and_isin, da_sel_tabulate.
  destruct (mem y ys && mem x xs); reflexivity.
Qed.

Lemma where_drop_y_In (a : DataArray (option Q)) (c : DataArray bool) (y : Z) :
  In y (da_y (where_drop a c)) <->
  In y (da_y a) /\ In y (da_y c) /\
  exists x, In x (da_x a) /\ In x (da_x c) /\ cond_at c y x = true.
Proof.
  unfold where_drop. simpl. rewrite !filter_In, existsb_exists, mem_In. split.
  - intros [[Ha Hc] [x [Hx Hxy]]]. rewrite filter_In, mem_In in Hx.
    intuition eauto.
  - intros [Ha [Hc [x [Hx [Hxc Hxy]]]]]. split; [tauto|].
    exists x. rewrite filter_In, mem_In. tauto.
Qed.

Lemma where_drop_x_In (a : DataArray (option Q)) (c : DataArray bool) (x : Z) :
  In x (da_x (where_drop a c)) <->
  In x (da_x a) /\ In x (da_x c) /\
  exists y, In y (da_y a) /\ In y (da_y c) /\ cond_at c y x = true.
Proof.
  unfold where_drop. simpl. rewrite !filter_In, existsb_exists, mem_In. split.
  - intros [[Ha Hc] [y [Hy Hxy]]]. rewrite filter_In, mem_In in Hy.
    intuition eauto.
  - intros [Ha [Hc [y [Hy [Hyc Hxy]]]]]. split; [tauto|].
    exists y. rewrite filter_In, mem_In. tauto.
Qed.

Section Selection.
Variable area : DataArray (option Q).
(** The coordinates of the matrix and of the cells listed for a bus. *)
Variables Y X : list Z.
Variables cx cy : list Z.

Let mask := mask_and (isin X cx) (isin Y cy).
Let selected := where_drop area mask.

Lemma mask_coords : da_y mask = Y /\ da_x mask = X.
Proof. unfold mask. rewrite mask_and_isin. now split. Qed.

Lemma selected_y_In (y : Z) :
  In y (da_y selected) <->
  In y (da_y area) /\ In y Y /\ In y cy /\
  exists x, In x (da_x area) /\ In x X /\ In x cx.
Proof.
  unfold selected. rewrite where_drop_y_In.
  destruct mask_coords as [-> ->]. split.
  - intros [Ha [HY [x [Hx [HX Hc]]]]]. unfold mask in Hc.
    rewrite cond_at_mask, !andb_true_iff, !mem_In in Hc.
    intuition eauto 10.
  - intros [Ha [HY [Hcy [x [Hax [HX Hcx]]]]]]. split; [tauto|].
    split; [tauto|]. exists x. unfold mask.
    rewrite cond_at_mask, !andb_true_iff, !mem_In. tauto.
Qed.

Lemma selected_x_In (x : Z) :
  In x (da_x selected) <->
  In x (da_x area) /\ In x X /\ In x cx /\
  exists y, In y (da_y area) /\ In y Y /\ In y cy.
Proof.
  unfold selected. rewrite where_drop_x_In.
  destruct mask_coords as [-> ->]. split.
  - intros [Ha [HX [y [Hy [HY Hc]]]]]. unfold mask in Hc.
    rewrite cond_at_mask, !andb_true_iff, !mem_In in Hc.
    intuition eauto 10.
  - intros [Ha [HX [Hcx [y [Hay [HY Hcy]]]]]]. split; [tauto|].
    split; [tauto|]. exists y. unfold mask.
    rewrite cond_at_mask, !andb_true_iff, !mem_In. tauto.
Qed.

Lemma selected_cond (y x : Z) :
  In y (da_y selected) -> In x (da_x selected) -> cond_at mask y x = true.
Proof.
  rewrite selected_y_In, selected_x_In. intros Hy Hx.
  unfold mask. rewrite cond_at_mask, !andb_true_iff, !mem_In. tauto.
Qed.

(** Inside the kept rectangle the mask holds everywhere, so nothing of
    the area array is blanked there. *)
Lemma selected_values :
  da_values selected =
  da_values (tabulate (da_y selected) (da_x selected) (da_get area)).
Proof.
  unfold selected at 1, where_drop. simpl.
  apply map_ext_in. intros y Hy. apply map_ext_in. intros x Hx.
  fold mask. rewrite selected_cond; [reflexivity| assumption | assumption].
Qed.

Lemma selected_NoDup_y : NoDup (da_y area) -> NoDup (da_y selected).
Proof. intros H. unfold selected, where_drop. simpl. now do 2 apply NoDup_filter. Qed.

Lemma selected_NoDup_x : NoDup (da_x area) -> NoDup (da_x selected).
Proof. intros H. unfold selected, where_drop. simpl. now do 2 apply NoDup_filter. Qed.

Lemma selected_sum :
  da_sum selected ==
  Qsum (map (fun y => Qsum (map (fun x => nan_to_zero (da_get area y x))
                                (da_x selected))) (da_y selected)).
Proof.
  unfold da_sum. rewrite selected_values. unfold tabulate. simpl.
  apply Qsum_table.
Qed.
End Selection.

(* ------------------------------------------------------------------ *)
(** * The matrix as a table of its entries *)

Lemma empty_matrix_tab3 (B : list string) (Y X : list Z) :
  empty_matrix B Y X = tab3 B Y X (fun _ _ _ => NaN).
Proof. reflexivity. Qed.

Lemma combine_map_self (A B : Type) (f : A -> B) (l : list A) :
  combine l (map f l) = map (fun a => (a, f a)) l.
Proof. induction l as [|a t IH]; simpl; [reflexivity | now rewrite IH]. Qed.

Lemma assigned_value (ys xs : list Z) (vals : list (list fval)) (y x : Z)
  (old : fval) :
  match index_of y ys, index_of x xs with
  | Some i, Some j =>
      match value_at vals i j with
      | Some v => v
      | None => old
      end
  | _, _ => old
  end =
  match da_sel (mkDA ys xs vals) y x with
  | Some v => v
  | None => old
  end.
Proof.
  unfold da_sel, value_at. simpl.
  destruct (index_of y ys), (index_of x xs); reflexivity.
Qed.

Lemma shape_ok_tabulate (ys xs : list Z) (h : Z -> Z -> fval) :
  shape_ok (da_values (tabulate ys xs h)) (List.length ys) (List.length xs) = true.
Proof.
  unfold shape_ok. simpl. rewrite length_map, Nat.eqb_refl. simpl.
  apply forallb_forall. intros row Hrow. apply in_map_iff in Hrow.
  destruct Hrow as [y [<- _]]. rewrite length_map. apply Nat.eqb_refl.
Qed.

Lemma forallb_mem_incl (l Y : list Z) :
  forallb (fun y => mem y Y) l = true <-> incl l Y.
Proof.
  rewrite forallb_forall. unfold incl.
  split; intros H z Hz; [apply mem_In | apply mem_In]; auto.
Qed.

(** Assigning a dense block of values by label rewrites exactly the
    entries of the named bus at the labels of the block. *)
Lemma loc_assign_tab3 (B : list string) (Y X : list Z)
  (G : string -> Z -> Z -> fval) (bus : string) (ys xs : list Z)
  (h : Z -> Z -> fval) :
  In bus B -> incl ys Y -> incl xs X ->
  loc_assign (tab3 B Y X G) bus ys xs (da_values (tabulate ys xs h)) =
  ret (tab3 B Y X (fun b y x =>
         if String.eqb b bus then
           if mem y ys && mem x xs then h y x else G b y x
         else G b y x)).
Proof.
  intros Hb Hys Hxs. unfold loc_assign.
  assert (Hne : Nat.eqb (List.length B) 0 = false)
    by (destruct B; [destruct Hb | reflexivity]).
  apply mem_str_In in Hb. apply forallb_mem_incl in Hys, Hxs.
  cbn [m_bus m_y m_x m_values tab3]. rewrite Hne, Hb, Hys, Hxs.
  rewrite shape_ok_tabulate. cbn [andb negb].
  unfold ret, tab3. do 2 f_equal.
  rewrite combine_map_self, map_map. apply map_ext. intros b. cbn [fst snd].
  destruct (String.eqb b bus); [|reflexivity].
  rewrite combine_map_self, map_map. apply map_ext. intros y. cbn [fst snd].
  rewrite combine_map_self, map_map. apply map_ext. intros x. cbn [fst snd].
  rewrite assigned_value.
  change (mkDA ys xs (da_values (tabulate ys xs h))) with (tabulate ys xs h).
  rewrite da_sel_tabulate. destruct (mem y ys && mem x xs); reflexivity.
Qed.

Lemma m_sel_tab3 (B : list string) (Y X : list Z)
  (G : string -> Z -> Z -> fval) (b : string) (y x : Z) :
  m_sel (tab3 B Y X G) b y x =
  if mem_str b B && mem y Y && mem x X then Some (G b y x) else None.
Proof.
  unfold m_sel, tab3. cbn [m_bus m_y m_x m_values].
  destruct (mem_str b B) eqn:Hb.
  - destruct (index_of_str_mem _ _ Hb) as [k Hk]. rewrite Hk.
    apply index_of_str_Some in Hk. rewrite (map_nth_error _ _ _ Hk).
    unfold value_at. destruct (mem y Y) eqn:Hy.
    + destruct (index_of_mem _ _ Hy) as [i Hi]. rewrite Hi.
      destruct (mem x X) eqn:Hx; simpl.
      * destruct (index_of_mem _ _ Hx) as [j Hj]. rewrite Hj.
        apply index_of_Some in Hi, Hj.
        rewrite (map_nth_error _ _ _ Hi). now rewrite (map_nth_error _ _ _ Hj).
      * now rewrite (index_of_None _ _ Hx).
    + now rewrite (index_of_None _ _ Hy).
  - simpl. assert (index_of_str b B = None) as ->; [|reflexivity].
    clear -Hb. induction B as [|a t IH]; simpl in *; [reflexivity|].
    destruct (String.eqb b a); simpl in *; [discriminate|].
    now rewrite IH.
Qed.

Lemma m_slice_tab3 (B : list string) (Y X : list Z)
  (G : string -> Z -> Z -> fval) (b : string) :
  In b B ->
  m_slice (tab3 B Y X G) b = Some (map (fun y => map (fun x => G b y x) X) Y).
Proof.
  intros Hb. apply mem_str_In in Hb. unfold m_slice, tab3. cbn [m_bus m_values].
  destruct (index_of_str_mem _ _ Hb) as [k Hk]. rewrite Hk.
  apply index_of_str_Some in Hk. now rewrite (map_nth_error _ _ _ Hk).
Qed.

(* ------------------------------------------------------------------ *)
(** * What the loop over the buses computes *)

Section Loop.
Variable area : DataArray (option Q).
Variables (B : list string) (Y X : list Z).
Variable cells : list (Z * Z * string).

Lemma selected_for_incl (bus : string) :
  incl (da_y (selected_for area Y X cells bus)) Y /\
  incl (da_x (selected_for area Y X cells bus)) X.
Proof.
  unfold selected_for. split; intros z Hz.
  - apply selected_y_In in Hz. tauto.
  - apply selected_x_In in Hz. tauto.
Qed.

Lemma quotient_values (bus : string) (s : Q) :
  let sd := selected_for area Y X cells bus in
  da_values (da_div sd s) =
  da_values (tabulate (da_y sd) (da_x sd)
               (fun y x => fdiv (da_get area y x) s)).
Proof.
  intros sd. unfold da_div.
  rewrite <- (@da_map_tabulate _ _ (fun v => fdiv v s)
                (da_y sd) (da_x sd) (da_get area)).
  unfold da_map. simpl. f_equal. apply selected_values.
Qed.

Lemma assign_bus_tab3 (G : string -> Z -> Z -> fval) (bus : string) :
  In bus B ->
  assign_bus area cells (tab3 B Y X G) bus =
  ret (tab3 B Y X (fun b y x =>
         if String.eqb b bus then
           let sd := selected_for area Y X cells bus in
           if mem y (da_y sd) && mem x (da_x sd)
           then fdiv (da_get area y x) (da_sum sd)
           else G b y x
         else G b y x)).
Proof.
  intros Hb. unfold assign_bus, bus_mask. cbn [m_x m_y tab3].
  fold (selected_for area Y X cells bus).
  rewrite quotient_values.
  destruct (selected_for_incl bus) as [Hy Hx].
  now apply loc_assign_tab3.
Qed.

Lemma for_each_assign (l : list string) :
  forall (P : string -> bool) (G : string -> Z -> Z -> fval),
    incl l B ->
    (forall b y x,
        G b y x = if P b then entry area Y X cells b y x else NaN) ->
    exists G',
      for_each l (assign_bus area cells) (tab3 B Y X G) = ret (tab3 B Y X G')
      /\ forall b y x,
          G' b y x = if mem_str b l || P b
                     then entry area Y X cells b y x else NaN.
Proof.
  induction l as [|a t IH]; intros P G Hl HG.
  - exists G. split; [reflexivity|]. intros. simpl. apply HG.
  - simpl for_each. rewrite assign_bus_tab3 by (apply Hl; now left).
    unfold bind, ret at 1.
    edestruct (IH (fun b => String.eqb b a || P b)) as [G' [HG' Hval]];
      [ intros z Hz; apply Hl; now right | | ].
    2:{ exists G'. split; [exact HG'|]. intros b y x. rewrite Hval.
        cbn [mem_str existsb]. fold (mem_str b t).
        destruct (String.eqb b a), (mem_str b t); reflexivity. }
    intros b y x. cbv beta zeta. destruct (String.eqb b a) eqn:E.
    + apply String.eqb_eq in E. subst b. cbn [orb]. unfold entry.
      cbv zeta.
      destruct (mem y _ && mem x _) eqn:Hsel; [reflexivity|].
      rewrite HG. unfold entry. cbv zeta. rewrite Hsel. now destruct (P a).
    + cbn [orb]. apply HG.
Qed.
End Loop.

Section AggregatorFacts.
Variable geom : Type.
Variable within : geom -> geom -> bool.

Let gridY (grid : list (GridCell geom)) := unique (map g_y grid).
Let gridX (grid : list (GridCell geom)) := unique (map g_x grid).

(** The loop raises nothing, and every entry of the matrix it returns is
    the quotient of the selection of its bus or NaN. *)
Lemma region_matrix_spec (area : DataArray (option Q))
  (grid : list (GridCell geom)) (regions : list (Region geom)) :
  exists G,
    region_matrix within area grid regions =
      ret (tab3 (map r_name regions) (gridY grid) (gridX grid) G)
    /\ forall b y x, In b (map r_name regions) ->
         G b y x = entry area (gridY grid) (gridX grid)
                     (map_cell_to_region within grid regions) b y x.
Proof.
  unfold region_matrix. rewrite empty_matrix_tab3.
  destruct (@for_each_assign area (map r_name regions)
              (gridY grid) (gridX grid)
              (map_cell_to_region within grid regions)
              (map r_name regions) (fun _ => false)
              (fun _ _ _ => NaN)) as [G [HG Hval]].
  - apply incl_refl.
  - reflexivity.
  - exists G. split; [exact HG|]. intros b y x Hb. rewrite Hval.
    apply mem_str_In in Hb. now rewrite Hb.
Qed.
End AggregatorFacts.

(** With the directory in place the whole run raises nothing: it prints
    every region number and writes one file for each, in the order of the
    dictionary. *)
Lemma notebook_run_returns (geom : Type) (within : geom -> geom -> bool)
  (buildings : list (Building geom)) (grid : list (GridCell geom))
  (supply_regions : list (Z * list (Region geom))) :
  exists out,
    notebook_run within true buildings grid supply_regions = ret out
    /\ printed out = map fst supply_regions
    /\ map fst (files out) = map fst supply_regions.
Proof.
  unfold notebook_run.
  assert (H : forall l out0, exists out,
    for_each l
      (fun out entry =>
         let region_num := fst entry in
         let out := mkOutput (printed out ++ [region_num]) (files out) in
         m <- region_matrix within (building_area_in_cell within buildings grid)
                grid (snd entry) ;;
         written <- to_netcdf true (files out) region_num m ;;
         ret (mkOutput (printed out) written))
      out0 = ret out
    /\ printed out = printed out0 ++ map fst l
    /\ map fst (files out) = map fst (files out0) ++ map fst l).
  { induction l as [|[n rs] t IH]; intros out0.
    - exists out0. simpl. now rewrite !app_nil_r.
    - cbn [for_each fst snd].
      destruct (region_matrix_spec geom within
                  (building_area_in_cell within buildings grid) grid rs)
        as [G [HG _]].
      rewrite HG. cbn [bind ret to_netcdf printed files].
      destruct (IH (mkOutput (printed out0 ++ [n])
                      (files out0 ++ [(n, tab3 (map r_name rs)
                                            (unique (map g_y grid))
                                            (unique (map g_x grid)) G)])))
        as [out [Hrun [Hp Hf]]].
      exists out. split; [exact Hrun|]. cbn [printed files] in Hp, Hf.
      rewrite Hp, Hf, map_app, <- !app_assoc. simpl. split; reflexivity. }
  destruct (H supply_regions (mkOutput [] [])) as [out [Hrun [Hp Hf]]].
  exists out. split; [exact Hrun|]. split; assumption.
Qed.

(** Without the directory the first file cannot be written, whatever the
    inputs are. *)
Lemma notebook_run_without_directory (geom : Type)
  (within : geom -> geom -> bool) (buildings : list (Building geom))
  (grid : list (GridCell geom)) (supply_regions : list (Z * list (Region geom))) :
  supply_regions <> [] ->
  notebook_run within false buildings grid supply_regions = raise OSError.
Proof.
  intros Hne. destruct supply_regions as [|[n rs] t]; [contradiction|].
  unfold notebook_run. cbn [for_each fst snd].
  destruct (region_matrix_spec geom within
              (building_area_in_cell within buildings grid) grid rs)
    as [G [HG _]].
  rewrite HG. reflexivity.
Qed.

(* ------------------------------------------------------------------ *)
(** * The area per cell *)

Section AreaFacts.
Variable geom : Type.
Variable within : geom -> geom -> bool.

Lemma sjoin_In (L R : Type) (gl : L -> geom) (gr : R -> geom)
  (left : list L) (right : list R) (a : L) (b : R) :
  In (a, b) (sjoin within gl gr left right) <->
  In a left /\ In b right /\ within (gl a) (gr b) = true.
Proof.
  unfold sjoin. rewrite in_flat_map. split.
  - intros [a' [Ha Hin]]. apply in_map_iff in Hin.
    destruct Hin as [b' [[= <- <-] Hb]]. apply filter_In in Hb. tauto.
  - intros [Ha [Hb Hw]]. exists a. split; [assumption|].
    apply in_map. apply filter_In. tauto.
Qed.

Lemma has_key_In (rows : list (Building geom * GridCell geom)) (k : Z * Z) :
  has_key rows k = true <-> In k (map row_key rows).
Proof.
  unfold has_key. rewrite existsb_exists, in_map_iff.
  split; intros [r [H1 H2]]; exists r.
  - apply key_eqb_eq in H2. tauto.
  - split; [assumption|]. now apply key_eqb_eq.
Qed.

Lemma find_keyed (F : Z * Z -> Q) (k : Z * Z) (ks : list (Z * Z)) :
  find (fun e => key_eqb (fst e) k) (map (fun k' => (k', F k')) ks) =
  if existsb (fun k' => key_eqb k' k) ks then Some (k, F k) else None.
Proof.
  induction ks as [|a t IH]; simpl; [reflexivity|].
  destruct (key_eqb a k) eqn:E; simpl.
  - apply key_eqb_eq in E. now subst.
  - exact IH.
Qed.

Lemma lookup_groupby (rows : list (Building geom * GridCell geom)) (k : Z * Z) :
  lookup_key k (groupby_sum_area rows) =
  if has_key rows k then Some (weight_at rows k) else None.
Proof.
  unfold lookup_key, groupby_sum_area.
  rewrite (find_keyed
    (fun k => Qsum (map (fun r : Building geom * GridCell geom => b_area (fst r))
                        (filter (fun r => key_eqb (row_key r) k) rows)))).
  assert (H : existsb (fun k' => key_eqb k' k)
                (sort_unique key_compare (map row_key rows))
              = has_key rows k).
  { apply eq_true_iff_eq. rewrite has_key_In, existsb_exists. split.
    - intros [k' [Hk' E]]. apply key_eqb_eq in E. subst.
      now rewrite sortK_In in Hk'.
    - intros Hk. exists k. split; [|now apply key_eqb_eq].
      now rewrite sortK_In. }
  rewrite H. now destruct (has_key rows k).
Qed.

Lemma groupby_keys (rows : list (Building geom * GridCell geom)) :
  map fst (groupby_sum_area rows) =
  sort_unique key_compare (map row_key rows).
Proof.
  unfold groupby_sum_area. rewrite map_map. simpl. apply map_id.
Qed.

Lemma to_xarray_y (rows : list (Building geom * GridCell geom)) (y : Z) :
  In y (da_y (to_xarray (groupby_sum_area rows))) <->
  exists x, has_key rows (y, x) = true.
Proof.
  unfold to_xarray. simpl. rewrite sortZ_In.
  rewrite <- (map_map fst fst), groupby_keys, in_map_iff. split.
  - intros [[y' x] [<- Hk]].
    rewrite sortK_In in Hk.
    exists x. now apply has_key_In.
  - intros [x Hx]. exists (y, x). split; [reflexivity|].
    rewrite sortK_In.
    now apply has_key_In.
Qed.

Lemma to_xarray_x (rows : list (Building geom * GridCell geom)) (x : Z) :
  In x (da_x (to_xarray (groupby_sum_area rows))) <->
  exists y, has_key rows (y, x) = true.
Proof.
  unfold to_xarray. simpl. rewrite sortZ_In.
  rewrite <- (map_map fst snd), groupby_keys, in_map_iff. split.
  - intros [[y x'] [<- Hk]].
    rewrite sortK_In in Hk.
    exists y. now apply has_key_In.
  - intros [y Hy]. exists (y, x). split; [reflexivity|].
    rewrite sortK_In.
    now apply has_key_In.
Qed.

(** Entry of the dense area array: the summed area of the rows on the
    key, NaN where no row falls. *)
Lemma da_get_to_xarray (rows : list (Building geom * GridCell geom)) (y x : Z) :
  da_get (to_xarray (groupby_sum_area rows)) y x =
  if has_key rows (y, x) then Some (weight_at rows (y, x)) else None.
Proof.
  unfold da_get. unfold to_xarray at 1. rewrite da_sel_tabulate.
  rewrite lookup_groupby.
  destruct (has_key rows (y, x)) eqn:Hk.
  - assert (Hy : mem y (da_y (to_xarray (groupby_sum_area rows))) = true)
      by (apply mem_In, to_xarray_y; eauto).
    assert (Hx : mem x (da_x (to_xarray (groupby_sum_area rows))) = true)
      by (apply mem_In, to_xarray_x; eauto).
    unfold to_xarray in Hy, Hx. simpl in Hy, Hx. now rewrite Hy, Hx.
  - now destruct (_ && _).
Qed.

Lemma area_NoDup (rows : list (Building geom * GridCell geom)) :
  NoDup (da_y (to_xarray (groupby_sum_area rows))) /\
  NoDup (da_x (to_xarray (groupby_sum_area rows))).
Proof. split; apply NoDup_sortZ. Qed.
End AreaFacts.

(* ------------------------------------------------------------------ *)
(** * The slice of a bus *)

Lemma fdiv_finite (w s : Q) : ~ s == 0 -> fdiv (Some w) s = Fin (w / s).
Proof.
  intros Hs. unfold fdiv. destruct (Qeq_bool s 0) eqn:E; [|reflexivity].
  apply Qeq_bool_iff in E. contradiction.
Qed.

Lemma fdiv_zero_zero (w s : Q) : s == 0 -> w == 0 -> fdiv (Some w) s = NaN.
Proof.
  intros Hs Hw. unfold fdiv.
  apply Qeq_bool_iff in Hs, Hw. now rewrite Hs, Hw.
Qed.

Section SliceFacts.
Variable geom : Type.
Variable within : geom -> geom -> bool.
Variable buildings : list (Building geom).
Variable grid : list (GridCell geom).
Variable regions : list (Region geom).

Let area := building_area_in_cell within buildings grid.
Let Y := unique (map g_y grid).
Let X := unique (map g_x grid).
Let cells := map_cell_to_region within grid regions.

(** The matrix is always produced, and the slice of each bus holds the
    entries described by [entry]. *)
Lemma computeZoneAvailability_slice (bus : string) :
  In bus (map r_name regions) ->
  exists m,
    computeZoneAvailability within buildings grid regions = ret m
    /\ m_bus m = map r_name regions /\ m_y m = Y /\ m_x m = X
    /\ m_slice m bus =
         Some (map (fun y => map (fun x => entry area Y X cells bus y x) X) Y)
    /\ forall y x,
         m_sel m bus y x =
         if mem y Y && mem x X
         then Some (entry area Y X cells bus y x) else None.
Proof.
  intros Hb. unfold computeZoneAvailability.
  destruct (region_matrix_spec geom within area grid regions) as [G [HG Hval]].
  fold area. rewrite HG. eexists. split; [reflexivity|].
  repeat split.
  - rewrite m_slice_tab3 by assumption. f_equal.
    apply map_ext. intros y. apply map_ext. intros x. now apply Hval.
  - intros y x. rewrite m_sel_tab3.
    apply mem_str_In in Hb. rewrite Hb. simpl.
    fold Y X. destruct (mem y Y && mem x X); [|reflexivity].
    f_equal. apply Hval. now apply mem_str_In.
Qed.

Lemma cell_list_In (bus : string) (x y : Z) :
  In (x, y) (cell_list cells bus) <-> In (x, y, bus) cells.
Proof.
  unfold cell_list. rewrite in_map_iff. split.
  - intros [[[x' y'] n] [[= <- <-] Hin]]. apply filter_In in Hin.
    destruct Hin as [Hin E]. apply String.eqb_eq in E. simpl in E. now subst.
  - intros Hin. exists (x, y, bus). split; [reflexivity|].
    apply filter_In. split; [assumption | apply String.eqb_refl].
Qed.

(** Membership of a cell index in a zone is containment of some grid
    cell with that index in some region with that name. *)
Lemma member_iff (bus : string) (x y : Z) :
  In (x, y, bus) cells <->
  exists c r, In c grid /\ In r regions /\ g_x c = x /\ g_y c = y /\
              r_name r = bus /\
              within (g_geometry c) (r_geometry r) = true.
Proof.
  unfold cells, map_cell_to_region. rewrite in_map_iff. split.
  - intros [[c r] [[= <- <- <-] Hin]]. apply sjoin_In in Hin.
    exists c, r. simpl. tauto.
  - intros [c [r [Hc [Hr [<- [<- [<- Hw]]]]]]]. exists (c, r).
    split; [reflexivity|]. apply sjoin_In. tauto.
Qed.

Lemma member_coords (bus : string) (x y : Z) :
  In (x, y) (cell_list cells bus) -> In y Y /\ In x X.
Proof.
  rewrite cell_list_In, member_iff.
  intros [c [r [Hc [_ [<- [<- _]]]]]]. unfold Y, X.
  rewrite !unique_In. split; now apply in_map.
Qed.
End SliceFacts.

(* ------------------------------------------------------------------ *)
(** * Weights of cells and zones *)

Section Weights.
Variable geom : Type.
Variable within : geom -> geom -> bool.

Variable buildings : list (Building geom).
Variable grid : list (GridCell geom).
Hypothesis areas_nonneg : forall b, In b buildings -> 0 <= b_area b.

Lemma weight_at_nonneg (k : Z * Z) :
  0 <= weight_at (buildings_in_cells within buildings grid) k.
Proof.
  unfold weight_at. apply Qsum_nonneg. intros [b c] Hr. simpl.
  unfold rows_at in Hr. apply filter_In in Hr. destruct Hr as [Hr _].
  apply sjoin_In in Hr. now apply areas_nonneg.
Qed.

Lemma cell_weight_nonneg (y x : Z) : 0 <= cell_weight within buildings grid y x.
Proof.
  unfold cell_weight, building_area_in_cell. rewrite da_get_to_xarray.
  destruct (has_key _ _); simpl; [apply weight_at_nonneg | apply Qle_refl].
Qed.


Variable regions : list (Region geom).
Variable bus : string.

Let sd := selected_data_of within buildings grid regions bus.

Lemma selected_sum_weights :
  da_sum sd ==
  Qsum (map (fun y => Qsum (map (fun x => cell_weight within buildings grid y x)
                                (da_x sd))) (da_y sd)).
Proof. unfold sd, selected_data_of, selected_for. apply selected_sum. Qed.

Lemma selected_sum_ge (y x : Z) :
  In y (da_y sd) -> In x (da_x sd) ->
  cell_weight within buildings grid y x <= da_sum sd.
Proof.
  intros Hy Hx. rewrite selected_sum_weights.
  eapply Qle_trans;
    [| apply (@Qsum_ge_term Z
          (fun y => Qsum (map (fun x => cell_weight within buildings grid y x)
                              (da_x sd))) (da_y sd) y);
       [intros; apply Qsum_nonneg; intros; apply cell_weight_nonneg
       | exact Hy]].
  apply (@Qsum_ge_term Z (fun x => cell_weight within buildings grid y x));
    [intros; apply cell_weight_nonneg | exact Hx].
Qed.


End Weights.

(* ------------------------------------------------------------------ *)
(** * Normalisation *)

Lemma Qsum_defined (l : list fval) :
  Qsum (map fin_part (filter notnull l)) == Qsum (map fin_part l).
Proof.
  induction l as [|v t IH]; simpl; [reflexivity|].
  destruct v; simpl; rewrite IH; ring.
Qed.

Section Normalisation.
Variable geom : Type.
Variable within : geom -> geom -> bool.
Variable buildings : list (Building geom).
Variable grid : list (GridCell geom).
Variable regions : list (Region geom).
Variable bus : string.

Let area := building_area_in_cell within buildings grid.
Let Y := unique (map g_y grid).
Let X := unique (map g_x grid).
Let cells := map_cell_to_region within grid regions.
Let sd := selected_data_of within buildings grid regions bus.

Lemma sd_NoDup : NoDup (da_y sd) /\ NoDup (da_x sd).
Proof.
  unfold sd, selected_data_of, selected_for, building_area_in_cell.
  split; [apply selected_NoDup_y | apply selected_NoDup_x];
    apply area_NoDup.
Qed.

Lemma sd_incl : incl (da_y sd) Y /\ incl (da_x sd) X.
Proof. apply selected_for_incl. Qed.

Lemma entry_unfold (y x : Z) :
  entry area Y X cells bus y x =
  if mem y (da_y sd) && mem x (da_x sd)
  then fdiv (da_get area y x) (da_sum sd) else NaN.
Proof. reflexivity. Qed.

(** With a nonzero divisor every entry is NaN or the cell's share. *)
Lemma entry_share (y x : Z) :
  ~ da_sum sd == 0 ->
  fin_part (entry area Y X cells bus y x) ==
  if mem y (da_y sd)
  then if mem x (da_x sd)
       then cell_weight within buildings grid y x * / da_sum sd else 0
  else 0.
Proof.
  intros HS. rewrite entry_unfold.
  destruct (mem y (da_y sd)), (mem x (da_x sd)); cbn [andb fin_part];
    try reflexivity.
  unfold cell_weight. fold area. destruct (da_get area y x) as [w|].
  - rewrite fdiv_finite by assumption. reflexivity.
  - simpl. ring.
Qed.


Lemma slice_sum_one :
  ~ da_sum sd == 0 ->
  Qsum (map fin_part
         (concat (map (fun y => map (fun x => entry area Y X cells bus y x) X) Y)))
  == 1.
Proof.
  intros HS. destruct sd_NoDup as [Hndy Hndx]. destruct sd_incl as [Hiy Hix].
  rewrite Qsum_table. unfold Y at 2. unfold X at 2.
  rewrite (Qsum_ext _ _
    (fun y => if mem y (da_y sd)
              then Qsum (map (fun x => cell_weight within buildings grid y x
                                       * / da_sum sd) (da_x sd))
              else 0)).
  2:{ intros y _. destruct (mem y (da_y sd)) eqn:Hy.
      - rewrite <- (Qsum_restrict _ _ _ (NoDup_unique (map g_x grid)) Hndx Hix).
        apply Qsum_ext. intros x _. rewrite entry_share by assumption.
        now rewrite Hy.
      - apply Qsum_zero. intros x _. rewrite entry_share by assumption.
        now rewrite Hy. }
  rewrite (Qsum_restrict
    (fun y => Qsum (map (fun x => cell_weight within buildings grid y x
                                  * / da_sum sd) (da_x sd)))
    _ _ (NoDup_unique (map g_y grid)) Hndy Hiy).
  rewrite (Qsum_ext _ _
    (fun y => Qsum (map (fun x => cell_weight within buildings grid y x)
                        (da_x sd)) * / da_sum sd))
    by (intros; apply Qsum_scale).
  rewrite Qsum_scale.
  unfold sd at 1 2. rewrite <- selected_sum_weights. fold sd.
  now apply Qmult_inv_r.
Qed.
End Normalisation.

(* ------------------------------------------------------------------ *)
(** * Normalised weights of a zone *)





(** C6. On the grid of four cells with zone Z1 over the cells (0,0) and
    (0,1), a feature of weight 10 in (0,0) and one of weight 30 in (0,1),
    the matrix of Z1 holds 0.25 at (0,0) and 0.75 at (0,1), and nothing
    at (1,0) and (1,1). *)
Theorem scenario_Z1 :
  exists m,
    computeZoneAvailability shape_within features_10_30 grid4 zone_Z1 = ret m
    /\ (exists v, matrix_at m "Z1" (0, 0)%Z = Some v /\ feq v (Fin (25 # 100)))
    /\ (exists v, matrix_at m "Z1" (0, 1)%Z = Some v /\ feq v (Fin (75 # 100)))
    /\ matrix_at m "Z1" (1, 0)%Z = Some NaN
    /\ matrix_at m "Z1" (1, 1)%Z = Some NaN
    /\ map (fun r => (b_area (fst r), (g_x (snd r), g_y (snd r))))
           (buildings_in_cells shape_within features_10_30 grid4)
       = [(inject_Z 10, (0, 0)); (inject_Z 30, (0, 1))]%Z
    /\ member_cells shape_within grid4 zone_Z1 "Z1" = [(0, 0); (0, 1)]%Z.
Proof.
  eexists. split; [vm_compute; reflexivity|].
  repeat split; try reflexivity;
    eexists; (split; [vm_compute; reflexivity | vm_compute; reflexivity]).
Qed.

(** C2, evaluated where it fails.  Zone L has the member cells (0,0),
    (0,1) and (1,1); cell (1,0) is a member of zone R only, and yet the
    matrix of L holds a defined value, a third, at (1,0). *)
Theorem leak_into_zone_L :
  exists m v,
    computeZoneAvailability shape_within features_three grid4 zones_L_R = ret m
    /\ member_cells shape_within grid4 zones_L_R "L" = [(0, 0); (0, 1); (1, 1)]%Z
    /\ member_cells shape_within grid4 zones_L_R "R" = [(1, 0)]%Z
    /\ matrix_at m "L" (1, 0)%Z = Some v
    /\ notnull v = true
    /\ feq v (Fin (1 # 3)).
Proof.
  do 2 eexists. split; [vm_compute; reflexivity|].
  repeat split; vm_compute; reflexivity.
Qed.

(* ------------------------------------------------------------------ *)
(** * The cells selected for a bus *)

Lemma mask_of_true (geom : Type) (within : geom -> geom -> bool)
  (grid : list (GridCell geom)) (regions : list (Region geom))
  (bus : string) (x y : Z) :
  cond_at (mask_of within grid regions bus) y x = true <->
  In x (map fst (member_cells within grid regions bus)) /\
  In y (map snd (member_cells within grid regions bus)).
Proof.
  unfold mask_of, bus_mask. cbn [m_x m_y empty_matrix].
  rewrite cond_at_mask, !andb_true_iff, !mem_In. split; [tauto|].
  intros [Hx Hy]. repeat split; try assumption.
  - apply in_map_iff in Hy. destruct Hy as [[x' y'] [<- Hc]].
    now apply member_coords in Hc.
  - apply in_map_iff in Hx. destruct Hx as [[x' y'] [<- Hc]].
    now apply member_coords in Hc.
Qed.

(** C3, as the code has it.  For every bus the mask holds exactly on the
    product of the x and the y coordinates of its member cells; the product
    contains every member cell and equals the member set exactly when the
    member set is a full rectangle.  The labels selected for normalisation
    and assignment are those labels of the area array at which the mask
    holds for some label of the area array in the other dimension: the
    mask holds at each pair of them, every member cell that has an entry
    in the area array is among them, and the matrix that is returned holds
    the quotient of the area by the sum of the selection at exactly the
    selected pairs and NaN at every other cell. *)
Theorem selection_is_product (geom : Type) (within : geom -> geom -> bool)
  (buildings : list (Building geom)) (grid : list (GridCell geom))
  (regions : list (Region geom)) (bus : string) :
  In bus (map r_name regions) ->
  let mc := member_cells within grid regions bus in
  let mask := mask_of within grid regions bus in
  let area := building_area_in_cell within buildings grid in
  let selected_data := where_drop area mask in
  exists m,
    computeZoneAvailability within buildings grid regions = ret m
    /\ (forall x y, cond_at mask y x = true <->
                    In x (map fst mc) /\ In y (map snd mc))
    /\ (forall x y, In (x, y) mc -> cond_at mask y x = true)
    /\ ((forall x y, cond_at mask y x = true -> In (x, y) mc)
        <-> full_rectangle mc)
    /\ (forall y, In y (da_y selected_data) <->
           In y (da_y area) /\
           exists x, In x (da_x area) /\ cond_at mask y x = true)
    /\ (forall x, In x (da_x selected_data) <->
           In x (da_x area) /\
           exists y, In y (da_y area) /\ cond_at mask y x = true)
    /\ (forall x y, In y (da_y selected_data) -> In x (da_x selected_data) ->
           cond_at mask y x = true)
    /\ (forall x y, In (x, y) mc -> da_get area y x <> None ->
           In y (da_y selected_data) /\ In x (da_x selected_data))
    /\ (forall x y, In y (m_y m) -> In x (m_x m) ->
           m_sel m bus y x =
           Some (if mem y (da_y selected_data) && mem x (da_x selected_data)
                 then fdiv (da_get area y x) (da_sum selected_data)
                 else NaN)).
Proof.
  intros Hb mc mask area selected_data.
  assert (Hmask : forall x y, cond_at mask y x = true <->
                              In x (map fst mc) /\ In y (map snd mc))
    by (intros; apply mask_of_true).
  assert (Hcoords : forall x y, cond_at mask y x = true ->
            In y (unique (map g_y grid)) /\ In x (unique (map g_x grid))).
  { intros x y Hc. apply Hmask in Hc. destruct Hc as [Hcx Hcy].
    apply in_map_iff in Hcy. destruct Hcy as [[x1 y1] [<- H1]].
    apply in_map_iff in Hcx. destruct Hcx as [[x2 y2] [<- H2]].
    apply member_coords in H1, H2. simpl. tauto. }
  assert (Hmy : da_y mask = unique (map g_y grid) /\
                da_x mask = unique (map g_x grid)).
  { unfold mask, mask_of, bus_mask. cbn [m_x m_y empty_matrix].
    apply mask_coords. }
  destruct Hmy as [Hmy Hmx].
  assert (Hsy : forall y, In y (da_y selected_data) <->
            In y (da_y area) /\
            exists x, In x (da_x area) /\ cond_at mask y x = true).
  { intros y. unfold selected_data. rewrite where_drop_y_In, Hmy, Hmx. split.
    - intros [Ha [_ [x [Hx [_ Hc]]]]]. split; [exact Ha|]. exists x. tauto.
    - intros [Ha [x [Hx Hc]]]. destruct (Hcoords x y Hc) as [HY HX].
      split; [exact Ha|]. split; [exact HY|]. exists x. tauto. }
  assert (Hsx : forall x, In x (da_x selected_data) <->
            In x (da_x area) /\
            exists y, In y (da_y area) /\ cond_at mask y x = true).
  { intros x. unfold selected_data. rewrite where_drop_x_In, Hmy, Hmx. split.
    - intros [Ha [_ [y [Hy [_ Hc]]]]]. split; [exact Ha|]. exists y. tauto.
    - intros [Ha [y [Hy Hc]]]. destruct (Hcoords x y Hc) as [HY HX].
      split; [exact Ha|]. split; [exact HX|]. exists y. tauto. }
  destruct (computeZoneAvailability_slice geom within buildings grid regions bus Hb)
    as [m [Hm [_ [HmY [HmX [_ Hsel]]]]]].
  exists m. split; [exact Hm|]. split; [exact Hmask|].
  split; [intros x y Hin; apply Hmask; split; apply in_map_iff; now exists (x, y)|].
  split.
  { unfold full_rectangle. split.
    - intros H x y Hx Hy. apply H, Hmask. tauto.
    - intros H x y Hc. apply Hmask in Hc. now apply H. }
  split; [exact Hsy|]. split; [exact Hsx|]. split; [|split].
  - intros x y Hy Hx. unfold selected_data, mask, mask_of, bus_mask in *.
    cbn [m_x m_y empty_matrix] in *.
    exact (selected_cond _ _ _ _ _ y x Hy Hx).
  - intros x y Hin Hdef.
    assert (Hnz : da_sel area y x <> None).
    { unfold da_get in Hdef. destruct (da_sel area y x); congruence. }
    assert (Ha : In y (da_y area) /\ In x (da_x area)).
    { unfold area, building_area_in_cell, to_xarray in Hnz |- *.
      rewrite da_sel_tabulate in Hnz. cbn [da_y da_x tabulate].
      rewrite <- !mem_In.
      destruct (mem y _), (mem x _); simpl in Hnz; try congruence; auto. }
    assert (Hc : cond_at mask y x = true)
      by (apply Hmask; split; apply in_map_iff; now exists (x, y)).
    split; [apply Hsy; split; [tauto | exists x; tauto]
           | apply Hsx; split; [tauto | exists y; tauto]].
  - intros x y Hy Hx. rewrite Hsel. rewrite HmY in Hy. rewrite HmX in Hx.
    apply mem_In in Hy, Hx. rewrite Hy, Hx. reflexivity.
Qed.

Lemma selection_is_product_witness :
  exists m,
    computeZoneAvailability shape_within features_one grid4 zone_Z1 = ret m
    /\ forall x y, In y (m_y m) -> In x (m_x m) ->
         m_sel m "Z1" y x =
         Some (if mem y (da_y (where_drop
                                 (building_area_in_cell shape_within features_one grid4)
                                 (mask_of shape_within grid4 zone_Z1 "Z1")))
                  && mem x (da_x (where_drop
                                    (building_area_in_cell shape_within features_one grid4)
                                    (mask_of shape_within grid4 zone_Z1 "Z1")))
               then fdiv (da_get (building_area_in_cell shape_within features_one grid4)
                                 y x)
                         (da_sum (where_drop
                                    (building_area_in_cell shape_within features_one grid4)
                                    (mask_of shape_within grid4 zone_Z1 "Z1")))
               else NaN).
Proof.
  destruct (selection_is_product shape shape_within features_one grid4 zone_Z1
              "Z1") as [m [Hm [_ [_ [_ [_ [_ [_ [_ Hsel]]]]]]]]].
  - now left.
  - exists m. split; [exact Hm | exact Hsel].
Defined.

(** C3 fails as stated for the cells that are selected and assigned.  Zone
    Z1 has the member cells (0,0) and (0,1), and the only building stands
    in cell (0,0).  The mask holds on the product, which is the two member
    cells, but the selection keeps the labels of the area array only: it
    is the single cell (0,0), and the member cell (0,1) is neither
    normalised nor assigned. *)
Lemma selection_leaves_member_cell_out :
  member_cells shape_within grid4 zone_Z1 "Z1" = [(0, 0); (0, 1)]%Z
  /\ cond_at (mask_of shape_within grid4 zone_Z1 "Z1") 0 0 = true
  /\ cond_at (mask_of shape_within grid4 zone_Z1 "Z1") 1 0 = true
  /\ da_y (building_area_in_cell shape_within features_one grid4) = [0]%Z
  /\ da_y (where_drop (building_area_in_cell shape_within features_one grid4)
                      (mask_of shape_within grid4 zone_Z1 "Z1")) = [0]%Z
  /\ da_x (where_drop (building_area_in_cell shape_within features_one grid4)
                      (mask_of shape_within grid4 zone_Z1 "Z1")) = [0]%Z
  /\ ~ In 1%Z (da_y (where_drop
                       (building_area_in_cell shape_within features_one grid4)
                       (mask_of shape_within grid4 zone_Z1 "Z1")))
  /\ assign_bus (building_area_in_cell shape_within features_one grid4)
       (map_cell_to_region shape_within grid4 zone_Z1)
       (empty_matrix ["Z1"%string] [0; 1]%Z [0; 1]%Z) "Z1" =
     loc_assign (empty_matrix ["Z1"%string] [0; 1]%Z [0; 1]%Z) "Z1"
       [0%Z] [0%Z] [[Fin (10 # 10)]]
  /\ computeZoneAvailability shape_within features_one grid4 zone_Z1 =
     ret (mkMatrix ["Z1"%string] [0; 1]%Z [0; 1]%Z
            [[[Fin (10 # 10); NaN]; [NaN; NaN]]]).
Proof.
  repeat split; try (vm_compute; reflexivity).
  vm_compute. intuition discriminate.
Qed.

(* ------------------------------------------------------------------ *)
(** * Cells and zones, features and cells *)

Lemma filter_absent_key (geom : Type) (P : GridCell geom -> bool)
  (grid : list (GridCell geom)) (k : Z * Z) :
  ~ In k (map cell_key grid) ->
  filter (fun c' => P c' && key_eqb (cell_key c') k) grid = [].
Proof.
  induction grid as [|a t IH]; simpl; intros Hk; [reflexivity|].
  destruct (key_eqb (cell_key a) k) eqn:E.
  - apply key_eqb_eq in E. exfalso. apply Hk. now left.
  - rewrite andb_false_r. apply IH. intros H. apply Hk. now right.
Qed.

Lemma filter_unique_key (geom : Type) (P : GridCell geom -> bool)
  (grid : list (GridCell geom)) (c : GridCell geom) :
  NoDup (map cell_key grid) -> In c grid ->
  filter (fun c' => P c' && key_eqb (cell_key c') (cell_key c)) grid =
  if P c then [c] else [].
Proof.
  induction grid as [|a t IH]; simpl; intros Hnd Hin; [contradiction|].
  inversion Hnd as [|k ks Hk Hks]; subst.
  destruct Hin as [->|Hin].
  - assert (E : key_eqb (cell_key c) (cell_key c) = true) by now apply key_eqb_eq.
    rewrite E, andb_true_r, (filter_absent_key geom P t (cell_key c) Hk).
    now destruct (P c).
  - assert (E : key_eqb (cell_key a) (cell_key c) = false).
    { destruct (key_eqb (cell_key a) (cell_key c)) eqn:Ea; [|reflexivity].
      apply key_eqb_eq in Ea. exfalso. apply Hk. rewrite Ea. now apply in_map. }
    rewrite E, andb_false_r. now apply IH.
Qed.

Lemma filter_map_pair (A B : Type) (a : A) (p : B -> bool) (l : list B) :
  filter (fun r => p (snd r)) (map (pair a) l) = map (pair a) (filter p l).
Proof.
  induction l as [|b t IH]; simpl; [reflexivity|].
  destruct (p b); simpl; now rewrite IH.
Qed.

Lemma rows_at_unique (geom : Type) (within : geom -> geom -> bool)
  (buildings : list (Building geom)) (grid : list (GridCell geom))
  (c : GridCell geom) :
  NoDup (map cell_key grid) -> In c grid ->
  rows_at (buildings_in_cells within buildings grid) (cell_key c) =
  map (fun b => (b, c))
      (filter (fun b => within (b_geometry b) (g_geometry c)) buildings).
Proof.
  intros Hnd Hin. unfold rows_at, buildings_in_cells, sjoin.
  induction buildings as [|b t IH]; simpl; [reflexivity|].
  rewrite filter_app, IH.
  change (fun r : Building geom * GridCell geom =>
            key_eqb (row_key r) (cell_key c))
    with (fun r : Building geom * GridCell geom =>
            (fun c' => key_eqb (cell_key c') (cell_key c)) (snd r)).
  rewrite filter_map_pair.
  assert (E : filter (fun c' => key_eqb (cell_key c') (cell_key c))
                (filter (fun c' => within (b_geometry b) (g_geometry c')) grid)
              = if within (b_geometry b) (g_geometry c) then [c] else []).
  { rewrite <- (filter_unique_key geom
                  (fun c' => within (b_geometry b) (g_geometry c')) grid c Hnd Hin).
    clear. induction grid as [|a g IHg]; simpl; [reflexivity|].
    destruct (within (b_geometry b) (g_geometry a)); simpl.
    - destruct (key_eqb _ _); now rewrite IHg.
    - exact IHg. }
  rewrite E. now destruct (within (b_geometry b) (g_geometry c)).
Qed.

Lemma has_key_rows_at (geom : Type) (rows : list (Building geom * GridCell geom))
  (k : Z * Z) :
  has_key rows k = match rows_at rows k with [] => false | _ => true end.
Proof.
  unfold has_key, rows_at. induction rows as [|r t IH]; simpl; [reflexivity|].
  destruct (key_eqb (row_key r) k); simpl; [reflexivity | exact IH].
Qed.

(** C8. Membership of a cell in a zone is containment of the cell polygon
    in the zone polygon: with unique cell indices, a grid cell that lies
    within no zone polygon is a member of no zone, whatever it
    intersects. *)
Theorem membership_is_containment (geom : Type)
  (within : geom -> geom -> bool) (grid : list (GridCell geom))
  (regions : list (Region geom)) (c : GridCell geom) :
  NoDup (map cell_key grid) ->
  In c grid ->
  (forall r, In r regions -> within (g_geometry c) (r_geometry r) = false) ->
  (forall x y name,
      In (x, y) (member_cells within grid regions name) <->
      exists c' r, In c' grid /\ In r regions /\ g_x c' = x /\ g_y c' = y /\
                   r_name r = name /\
                   within (g_geometry c') (r_geometry r) = true)
  /\ forall name, ~ In (g_x c, g_y c) (member_cells within grid regions name).
Proof.
  intros Hnd Hc Hout.
  assert (Hiff : forall x y name,
      In (x, y) (member_cells within grid regions name) <->
      exists c' r, In c' grid /\ In r regions /\ g_x c' = x /\ g_y c' = y /\
                   r_name r = name /\
                   within (g_geometry c') (r_geometry r) = true).
  { intros x y name. unfold member_cells. rewrite cell_list_In. apply member_iff. }
  split; [exact Hiff|].
  intros name Hin. apply Hiff in Hin.
  destruct Hin as [c' [r [Hc' [Hr [Hx [Hy [_ Hw]]]]]]].
  assert (c' = c).
  { pose proof (filter_unique_key geom (fun _ => true) grid c Hnd Hc) as Hf.
    simpl in Hf.
    assert (Hin' : In c' (filter (fun c'0 => key_eqb (cell_key c'0) (cell_key c)) grid)).
    { apply filter_In. split; [assumption|]. apply key_eqb_eq.
      unfold cell_key. congruence. }
    rewrite Hf in Hin'. destruct Hin' as [<-|[]]. reflexivity. }
  subst c'. rewrite (Hout r Hr) in Hw. discriminate.
Qed.

Lemma membership_is_containment_witness :
  shape_intersects (g_geometry (cell 1 0)) (squares 0 0 3 2) = true
  /\ shape_intersects (g_geometry (cell 1 0)) (squares 3 0 3 2) = true
  /\ (forall x y name,
        In (x, y) (member_cells shape_within grid3 zones_W_E name) <->
        exists c' r, In c' grid3 /\ In r zones_W_E /\ g_x c' = x /\ g_y c' = y /\
                     r_name r = name /\
                     shape_within (g_geometry c') (r_geometry r) = true)
  /\ forall name, ~ In (1, 0)%Z (member_cells shape_within grid3 zones_W_E name).
Proof.
  split; [reflexivity|]. split; [reflexivity|].
  apply (membership_is_containment shape shape_within grid3 zones_W_E (cell 1 0)).
  - repeat constructor; simpl; intuition discriminate.
  - right. now left.
  - intros r [<-|[<-|[]]]; reflexivity.
Defined.

(** C5, as the code has it.  A feature is joined to exactly the grid
    cells whose polygon contains the whole feature polygon, and with
    unique cell indices the weight of a cell is the sum of the weights of
    exactly the features joined to it; a cell with no such feature has no
    weight. *)
Theorem cell_weight_is_sum_of_contained (geom : Type)
  (within : geom -> geom -> bool) (buildings : list (Building geom))
  (grid : list (GridCell geom)) (c : GridCell geom) :
  NoDup (map cell_key grid) ->
  In c grid ->
  (forall b c', In (b, c') (buildings_in_cells within buildings grid) <->
                In b buildings /\ In c' (assigned_cells within b grid))
  /\ da_get (building_area_in_cell within buildings grid) (g_y c) (g_x c) =
     match filter (fun b => within (b_geometry b) (g_geometry c)) buildings with
     | [] => None
     | fs => Some (Qsum (map b_area fs))
     end.
Proof.
  intros Hnd Hc. split.
  - intros b c'. unfold buildings_in_cells, assigned_cells.
    rewrite sjoin_In, filter_In. tauto.
  - unfold building_area_in_cell. rewrite da_get_to_xarray.
    change (g_y c, g_x c) with (cell_key c).
    rewrite has_key_rows_at. unfold weight_at.
    rewrite (rows_at_unique geom within buildings grid c Hnd Hc).
    destruct (filter _ buildings) as [|b fs]; [reflexivity|].
    cbn [map]. rewrite map_map. reflexivity.
Qed.

Lemma cell_weight_is_sum_of_contained_witness :
  (forall b c', In (b, c') (buildings_in_cells shape_within features_10_30 grid4) <->
                In b features_10_30 /\ In c' (assigned_cells shape_within b grid4))
  /\ da_get (building_area_in_cell shape_within features_10_30 grid4) 1 0 =
     match filter (fun b => shape_within (b_geometry b) (g_geometry (cell 0 1)))
                  features_10_30 with
     | [] => None
     | fs => Some (Qsum (map b_area fs))
     end.
Proof.
  apply (cell_weight_is_sum_of_contained shape shape_within features_10_30
           grid4 (cell 0 1)).
  - repeat constructor; simpl; intuition discriminate.
  - right. now left.
Defined.

(** C5 fails as stated: a building that lies across two cells is joined to
    no cell, although the square around its centre lies in cell (0,0), and
    its weight reaches no cell. *)
Lemma straddling_feature_has_no_cell :
  shape_intersects (b_geometry long_building) (g_geometry (cell 0 0)) = true
  /\ shape_intersects (b_geometry long_building) (g_geometry (cell 1 0)) = true
  /\ shape_within [(1, 0)%Z] (g_geometry (cell 0 0)) = true
  /\ List.length (assigned_cells shape_within long_building grid4) <> 1%nat
  /\ buildings_in_cells shape_within [long_building] grid4 = []
  /\ forall y x,
       da_get (building_area_in_cell shape_within [long_building] grid4) y x
       = None.
Proof.
  split; [reflexivity|]. split; [reflexivity|]. split; [reflexivity|].
  split; [vm_compute; discriminate|]. split; [reflexivity|].
  intros y x. reflexivity.
Qed.

(* ------------------------------------------------------------------ *)
(** * Zones without cells, zones without weight, empty inputs *)

Lemma all_nan_defined (l : list fval) :
  (forall v, In v l -> v = NaN) -> filter notnull l = [].
Proof.
  induction l as [|v t IH]; simpl; intros H; [reflexivity|].
  rewrite (H v) by now left. simpl. apply IH. intros; apply H; now right.
Qed.

Lemma table_all_nan (Y X : list Z) (f : Z -> Z -> fval) :
  (forall y x, f y x = NaN) ->
  forall v, In v (concat (map (fun y => map (fun x => f y x) X) Y)) -> v = NaN.
Proof.
  intros Hf v Hv. apply in_concat in Hv. destruct Hv as [row [Hrow Hv]].
  apply in_map_iff in Hrow. destruct Hrow as [y [<- _]].
  apply in_map_iff in Hv. destruct Hv as [x [<- _]]. apply Hf.
Qed.

(** C10, as the code has it.  For a zone without member cells the matrix
    is returned and every entry of the zone's slice is undefined. *)
Theorem zone_without_cells_is_undefined (geom : Type)
  (within : geom -> geom -> bool) (buildings : list (Building geom))
  (grid : list (GridCell geom)) (regions : list (Region geom))
  (bus : string) :
  In bus (map r_name regions) ->
  member_cells within grid regions bus = [] ->
  exists m slice,
    computeZoneAvailability within buildings grid regions = ret m
    /\ m_slice m bus = Some slice
    /\ (forall v, In v (concat slice) -> v = NaN)
    /\ defined_values slice = [].
Proof.
  intros Hb Hmc.
  destruct (computeZoneAvailability_slice geom within buildings grid regions bus Hb)
    as [m [Hm [_ [_ [_ [Hslice _]]]]]].
  exists m. eexists. split; [exact Hm|]. split; [exact Hslice|].
  assert (Hnan : forall y x,
             entry (building_area_in_cell within buildings grid)
               (unique (map g_y grid)) (unique (map g_x grid))
               (map_cell_to_region within grid regions) bus y x = NaN).
  { intros y x. unfold entry. cbv zeta.
    destruct (mem y _) eqn:Hy; [|reflexivity]. exfalso.
    apply mem_In in Hy. unfold selected_for in Hy. apply selected_y_In in Hy.
    unfold member_cells in Hmc. rewrite Hmc in Hy. simpl in Hy. tauto. }
  split.
  - now apply table_all_nan.
  - apply all_nan_defined. now apply table_all_nan.
Qed.

Lemma zone_without_cells_is_undefined_witness :
  exists m slice,
    computeZoneAvailability shape_within features_10_30 grid4 zone_off_grid = ret m
    /\ m_slice m "Z2" = Some slice
    /\ (forall v, In v (concat slice) -> v = NaN)
    /\ defined_values slice = [].
Proof.
  apply (zone_without_cells_is_undefined shape shape_within features_10_30
           grid4 zone_off_grid "Z2").
  - now left.
  - reflexivity.
Defined.

(** C10 fails as stated.  Zone Z2 lies off the grid and has no member
    cell: the run leaves the printed region number and the file with an
    all-undefined matrix behind and nothing else, the same as it does here
    for a zone Z2 that is the cell (1,0), which holds no building. *)
Lemma no_member_cells_goes_unreported :
  member_cells shape_within grid4 zone_off_grid "Z2" = []
  /\ member_cells shape_within grid4 zone_Z2 "Z2" = [(1, 0)%Z]
  /\ notebook_run shape_within true features_10_30 grid4 [(1%Z, zone_off_grid)] =
     ret (mkOutput [1%Z]
            [(1%Z, empty_matrix ["Z2"%string] [0; 1]%Z [0; 1]%Z)])
  /\ notebook_run shape_within true features_10_30 grid4 [(1%Z, zone_off_grid)] =
     notebook_run shape_within true features_10_30 grid4 [(1%Z, zone_Z2)].
Proof. repeat split; vm_compute; reflexivity. Qed.

(** C9, as the code has it.  With no features, no grid cells or no zones
    the aggregation raises nothing: it returns a matrix in which no entry
    is defined. *)
Theorem empty_input_gives_undefined_matrix (geom : Type)
  (within : geom -> geom -> bool) (buildings : list (Building geom))
  (grid : list (GridCell geom)) (regions : list (Region geom)) :
  buildings = [] \/ grid = [] \/ regions = [] ->
  exists m,
    computeZoneAvailability within buildings grid regions = ret m
    /\ forall bus y x v, m_sel m bus y x = Some v -> v = NaN.
Proof.
  intros Hempty. unfold computeZoneAvailability.
  destruct (region_matrix_spec geom within
              (building_area_in_cell within buildings grid) grid regions)
    as [G [HG Hval]].
  eexists. split; [exact HG|].
  intros bus y x v. rewrite m_sel_tab3.
  destruct (mem_str bus (map r_name regions)) eqn:Hb; [|discriminate].
  destruct (mem y _) eqn:Hy; [|discriminate].
  destruct (mem x _) eqn:Hx; [|discriminate]. simpl. intros [= <-].
  apply mem_str_In in Hb. rewrite (Hval bus y x Hb).
  destruct Hempty as [-> | [-> | ->]].
  - unfold entry. cbv zeta. destruct (mem y (da_y _)) eqn:Hs; [|reflexivity].
    exfalso. apply mem_In in Hs. unfold selected_for in Hs.
    apply selected_y_In in Hs. destruct Hs as [Hs _]. exact Hs.
  - discriminate.
  - contradiction.
Qed.

Lemma empty_input_gives_undefined_matrix_witness :
  exists m,
    computeZoneAvailability shape_within [] grid4 zone_Z1 = ret m
    /\ forall bus y x v, m_sel m bus y x = Some v -> v = NaN.
Proof.
  apply (empty_input_gives_undefined_matrix shape shape_within [] grid4 zone_Z1).
  left. reflexivity.
Defined.

(** C9 fails as stated: each of the three empty inputs, and an empty
    collection of zone sets, gives a result and no error. *)
Lemma empty_inputs_return_normally :
  computeZoneAvailability shape_within [] grid4 zone_Z1 =
    ret (empty_matrix ["Z1"%string] [0; 1]%Z [0; 1]%Z)
  /\ computeZoneAvailability shape_within features_10_30 [] zone_Z1 =
    ret (empty_matrix ["Z1"%string] [] [])
  /\ computeZoneAvailability shape_within features_10_30 grid4 [] =
    ret (empty_matrix [] [0; 1]%Z [0; 1]%Z)
  /\ notebook_run shape_within true features_10_30 grid4 [] = ret (mkOutput [] []).
Proof. repeat split; vm_compute; reflexivity. Qed.

Section ZeroWeight.
Variable geom : Type.
Variable within : geom -> geom -> bool.
Variable buildings : list (Building geom).
Variable grid : list (GridCell geom).
Variable regions : list (Region geom).
Variable bus : string.
Hypothesis areas_nonneg : forall b, In b buildings -> 0 <= b_area b.
Hypothesis rect : full_rectangle (member_cells within grid regions bus).
Hypothesis no_weight : member_weight within buildings grid regions bus == 0.

Lemma selected_is_member (y x : Z) :
  In y (da_y (selected_data_of within buildings grid regions bus)) ->
  In x (da_x (selected_data_of within buildings grid regions bus)) ->
  In (x, y) (member_cells within grid regions bus).
Proof.
  unfold selected_data_of, selected_for. intros Hy Hx.
  apply selected_y_In in Hy. apply selected_x_In in Hx.
  apply rect; tauto.
Qed.

Lemma member_without_weight (x y : Z) :
  In (x, y) (member_cells within grid regions bus) ->
  cell_weight within buildings grid y x == 0.
Proof.
  intros Hin.
  pose proof (Qsum_ge_term (Z * Z)
                (fun c => cell_weight within buildings grid (snd c) (fst c))
                (member_cells within grid regions bus) (x, y)
                (fun c _ => cell_weight_nonneg geom within buildings grid
                              areas_nonneg (snd c) (fst c)) Hin) as Hle.
  simpl in Hle. fold (member_weight within buildings grid regions bus) in Hle.
  pose proof (cell_weight_nonneg geom within buildings grid areas_nonneg y x).
  rewrite no_weight in Hle. lra.
Qed.

Lemma zero_selected_sum :
  da_sum (selected_data_of within buildings grid regions bus) == 0.
Proof.
  rewrite (selected_sum_weights geom within buildings grid regions bus).
  apply Qsum_zero. intros y Hy. apply Qsum_zero. intros x Hx.
  apply member_without_weight. now apply selected_is_member.
Qed.

Lemma zero_weight_entry (y x : Z) :
  entry (building_area_in_cell within buildings grid)
    (unique (map g_y grid)) (unique (map g_x grid))
    (map_cell_to_region within grid regions) bus y x = NaN.
Proof.
  rewrite (entry_unfold geom within buildings grid regions bus).
  destruct (mem y _) eqn:Hy; [|reflexivity].
  destruct (mem x _) eqn:Hx; [|reflexivity]. cbn [andb].
  apply mem_In in Hy, Hx.
  pose proof (member_without_weight x y (selected_is_member y x Hy Hx)) as Hw.
  unfold cell_weight in Hw.
  destruct (da_get _ y x) as [w|]; [|reflexivity].
  apply fdiv_zero_zero; [apply zero_selected_sum | exact Hw].
Qed.
End ZeroWeight.

(** C4, as the code has it.  For every zone whose member cells form a full
    rectangle and carry zero total weight, weights being non-negative, the
    sum that divides the selection is zero and every entry of the zone's
    slice is NaN, the value of an entry that was never set. *)
Theorem zero_weight_zone_is_all_nan (geom : Type)
  (within : geom -> geom -> bool) (buildings : list (Building geom))
  (grid : list (GridCell geom)) (regions : list (Region geom))
  (bus : string) :
  (forall b, In b buildings -> 0 <= b_area b) ->
  In bus (map r_name regions) ->
  full_rectangle (member_cells within grid regions bus) ->
  member_weight within buildings grid regions bus == 0 ->
  exists m slice,
    computeZoneAvailability within buildings grid regions = ret m
    /\ m_slice m bus = Some slice
    /\ da_sum (selected_data_of within buildings grid regions bus) == 0
    /\ (forall v, In v (concat slice) -> v = NaN)
    /\ defined_values slice = [].
Proof.
  intros Hnn Hb Hrect Hzero.
  destruct (computeZoneAvailability_slice geom within buildings grid regions bus Hb)
    as [m [Hm [_ [_ [_ [Hslice _]]]]]].
  exists m. eexists. split; [exact Hm|]. split; [exact Hslice|].
  split; [now apply zero_selected_sum|].
  pose proof (zero_weight_entry geom within buildings grid regions bus
                Hnn Hrect Hzero) as Hnan.
  split.
  - now apply table_all_nan.
  - apply all_nan_defined. now apply table_all_nan.
Qed.

Lemma zero_weight_zone_is_all_nan_witness :
  exists m slice,
    computeZoneAvailability shape_within features_around grid4 zone_cell00 = ret m
    /\ m_slice m "Z" = Some slice
    /\ da_sum (selected_data_of shape_within features_around grid4 zone_cell00 "Z") == 0
    /\ (forall v, In v (concat slice) -> v = NaN)
    /\ defined_values slice = [].
Proof.
  apply (zero_weight_zone_is_all_nan shape shape_within features_around grid4
           zone_cell00 "Z").
  - intros b [<-|[<-|[]]]; vm_compute; discriminate.
  - now left.
  - intros x y Hx Hy. vm_compute in Hx, Hy |- *. intuition congruence.
  - vm_compute. reflexivity.
Defined.

(** C4 fails as stated: the quotient is not guarded.  Zone Z is the cell
    (0,0), which holds no building while its row and its column do; the
    selection is the one entry NaN, its sum is 0, the entry is divided by
    that 0, and the NaN that results is what is assigned to the matrix. *)
Lemma zero_sum_is_divided_by :
  member_weight shape_within features_around grid4 zone_cell00 "Z" == 0
  /\ da_values (selected_data_of shape_within features_around grid4 zone_cell00 "Z")
     = [[None]]
  /\ da_sum (selected_data_of shape_within features_around grid4 zone_cell00 "Z") == 0
  /\ da_values
       (da_div (selected_data_of shape_within features_around grid4 zone_cell00 "Z")
          (da_sum (selected_data_of shape_within features_around grid4 zone_cell00 "Z")))
     = [[fdiv None 0]]
  /\ fdiv None 0 = NaN
  /\ assign_bus (building_area_in_cell shape_within features_around grid4)
       (map_cell_to_region shape_within grid4 zone_cell00)
       (empty_matrix ["Z"%string] [0; 1]%Z [0; 1]%Z) "Z" =
     loc_assign (empty_matrix ["Z"%string] [0; 1]%Z [0; 1]%Z) "Z"
       [0%Z] [0%Z] [[NaN]]
  /\ notebook_run shape_within true features_around grid4 [(1%Z, zone_cell00)] =
     ret (mkOutput [1%Z]
            [(1%Z, mkMatrix ["Z"%string] [0; 1]%Z [0; 1]%Z
                     [[[NaN; NaN]; [NaN; NaN]]])]).
Proof. repeat split; vm_compute; reflexivity. Qed.

(* ------------------------------------------------------------------ *)
(** * Doubling the weight of one feature *)



Lemma where_drop_coords (a a' : DataArray (option Q)) (c : DataArray bool) :
  da_y a = da_y a' -> da_x a = da_x a' ->
  da_y (where_drop a c) = da_y (where_drop a' c) /\
  da_x (where_drop a c) = da_x (where_drop a' c).
Proof.
  intros Hy Hx. unfold where_drop. cbn [da_y da_x tabulate].
  rewrite Hy, Hx. split; reflexivity.
Qed.

Section Doubling.
Variable geom : Type.
Variable within : geom -> geom -> bool.
Variable grid : list (GridCell geom).
Variables l1 l2 : list (Building geom).
Variable f : Building geom.

Let bs := l1 ++ f :: l2.
Let rows := buildings_in_cells within bs grid.











Hypothesis areas_nonneg : forall b, In b bs -> 0 <= b_area b.
Hypothesis weight_pos : 0 < b_area f.
Variable c : GridCell geom.
Hypothesis c_in_grid : In c grid.
Hypothesis f_in_c : within (b_geometry f) (g_geometry c) = true.
Hypothesis only_c : forall c', In c' grid ->
    within (b_geometry f) (g_geometry c') = true -> cell_key c' = cell_key c.




End Doubling.




Section DoublingSum.
Variable geom : Type.
Variable within : geom -> geom -> bool.
Variable grid : list (GridCell geom).
Variables l1 l2 : list (Building geom).
Variable f : Building geom.
Variable regions : list (Region geom).
Variable bus : string.
Variable c : GridCell geom.
Hypothesis only_c : forall c', In c' grid ->
    within (b_geometry f) (g_geometry c') = true -> cell_key c' = cell_key c.

Let sd := selected_data_of within (l1 ++ f :: l2) grid regions bus.



End DoublingSum.




(* ------------------------------------------------------------------ *)
(** * The matrix of a set of regions *)

(** X2. The matrix of a set of regions is labelled by the names of the
    regions and by the distinct y and x values of the grid, none of them
    repeated, and it is dense: one slice per name, one row per y label and
    one entry per x label. *)
Theorem matrix_is_dense (geom : Type) (within : geom -> geom -> bool)
  (buildings : list (Building geom)) (grid : list (GridCell geom))
  (regions : list (Region geom)) :
  exists m,
    computeZoneAvailability within buildings grid regions = ret m
    /\ m_bus m = map r_name regions
    /\ (forall y, In y (m_y m) <-> exists c, In c grid /\ g_y c = y)
    /\ (forall x, In x (m_x m) <-> exists c, In c grid /\ g_x c = x)
    /\ NoDup (m_y m) /\ NoDup (m_x m)
    /\ List.length (m_values m) = List.length regions
    /\ (forall slice, In slice (m_values m) ->
         List.length slice = List.length (m_y m)
         /\ forall row, In row slice ->
              List.length row = List.length (m_x m))
    /\ forall bus y x,
         (exists v, m_sel m bus y x = Some v) <->
         In bus (m_bus m) /\ In y (m_y m) /\ In x (m_x m).
Proof.
  unfold computeZoneAvailability.
  destruct (region_matrix_spec geom within
              (building_area_in_cell within buildings grid) grid regions)
    as [G [HG _]].
  eexists. split; [exact HG|]. cbn [m_bus m_y m_x m_values tab3].
  split; [reflexivity|]. split; [|split].
  - intros y. rewrite unique_In, in_map_iff. split; intros [c H]; exists c; tauto.
  - intros x. rewrite unique_In, in_map_iff. split; intros [c H]; exists c; tauto.
  - split; [apply NoDup_unique|]. split; [apply NoDup_unique|].
    split; [now rewrite !length_map|]. split.
    + intros slice Hs. apply in_map_iff in Hs. destruct Hs as [b [<- _]].
      split; [now rewrite length_map|].
      intros row Hr. apply in_map_iff in Hr. destruct Hr as [y [<- _]].
      now rewrite length_map.
    + intros bus y x. rewrite m_sel_tab3, <- mem_str_In, <- !mem_In.
      destruct (mem_str bus _), (mem y _), (mem x _); cbn [andb];
        split; try (intros [v H]; discriminate); try (intros [H1 [H2 H3]]; discriminate);
        eauto.
Qed.

(* ------------------------------------------------------------------ *)
(** * The body of the loop over the buses *)

Lemma nth_error_other_bus (bus : string)
  (f : string * list (list fval) -> list (list fval)) (b : string) :
  (forall bs, String.eqb (fst bs) bus = false -> f bs = snd bs) ->
  b <> bus ->
  forall (B : list string) (V : list (list (list fval))) (k : nat),
    nth_error B k = Some b ->
    nth_error (map f (combine B V)) k = nth_error V k.
Proof.
  intros Hf Hb. induction B as [|a t IH]; intros V k Hk.
  - destruct k; discriminate.
  - destruct V as [|v V'].
    + simpl. now destruct k.
    + destruct k as [|k']; simpl in *.
      * injection Hk as ->. f_equal. apply Hf. simpl.
        now apply String.eqb_neq.
      * now apply IH.
Qed.

(** X3. Whatever matrix the body of the bus loop is run on, when it
    returns it has kept the three coordinates and the slice of every bus
    other than its own. *)
Theorem assign_bus_keeps_other_buses (area : DataArray (option Q))
  (cells : list (Z * Z * string)) (m m' : Matrix) (bus : string) :
  assign_bus area cells m bus = ret m' ->
  m_bus m' = m_bus m /\ m_y m' = m_y m /\ m_x m' = m_x m
  /\ forall b, b <> bus -> m_slice m' b = m_slice m b.
Proof.
  unfold assign_bus, loc_assign.
  destruct (Nat.eqb _ _); [discriminate|].
  destruct (negb _); [discriminate|].
  destruct (negb _); [discriminate|].
  intros [= <-]. cbn [m_bus m_y m_x]. repeat split.
  intros b Hb. unfold m_slice. cbn [m_bus m_values].
  destruct (index_of_str b (m_bus m)) as [k|] eqn:Hk; [|reflexivity].
  apply index_of_str_Some in Hk.
  apply nth_error_other_bus with (bus := bus) (b := b); try assumption.
  intros bs E. now rewrite E.
Qed.

Lemma assign_bus_keeps_other_buses_witness :
  exists m',
    assign_bus (building_area_in_cell shape_within features_three grid4)
      (map_cell_to_region shape_within grid4 zones_L_R)
      (empty_matrix ["L"%string; "R"%string] [0; 1]%Z [0; 1]%Z) "R" = ret m'
    /\ m_slice m' "R" = Some [[NaN; Fin (10 # 10)]; [NaN; NaN]]
    /\ m_bus m' = ["L"%string; "R"%string]
    /\ m_y m' = [0; 1]%Z /\ m_x m' = [0; 1]%Z
    /\ forall b, b <> "R"%string ->
         m_slice m' b =
         m_slice (empty_matrix ["L"%string; "R"%string] [0; 1]%Z [0; 1]%Z) b.
Proof.
  eexists. split; [vm_compute; reflexivity|]. split; [reflexivity|].
  apply (assign_bus_keeps_other_buses
           (building_area_in_cell shape_within features_three grid4)
           (map_cell_to_region shape_within grid4 zones_L_R)
           (empty_matrix ["L"%string; "R"%string] [0; 1]%Z [0; 1]%Z) _ "R").
  vm_compute. reflexivity.
Defined.

Lemma assign_bus_checks (area : DataArray (option Q))
  (cells : list (Z * Z * string)) (m : Matrix) (bus : string) :
  forallb (fun y => mem y (m_y m))
    (da_y (where_drop area (bus_mask m (cell_list cells bus)))) = true
  /\ forallb (fun x => mem x (m_x m))
       (da_x (where_drop area (bus_mask m (cell_list cells bus)))) = true
  /\ shape_ok
       (da_values
          (da_div (where_drop area (bus_mask m (cell_list cells bus)))
             (da_sum (where_drop area (bus_mask m (cell_list cells bus))))))
       (List.length (da_y (where_drop area (bus_mask m (cell_list cells bus)))))
       (List.length (da_x (where_drop area (bus_mask m (cell_list cells bus)))))
     = true.
Proof.
  split; [|split].
  - apply forallb_mem_incl. intros y Hy. apply where_drop_y_In in Hy.
    destruct Hy as [_ [Hy _]]. unfold bus_mask in Hy.
    now rewrite mask_and_isin in Hy.
  - apply forallb_mem_incl. intros x Hx. apply where_drop_x_In in Hx.
    destruct Hx as [_ [Hx _]]. unfold bus_mask in Hx.
    now rewrite mask_and_isin in Hx.
  - unfold where_drop at 1 3 4. cbv zeta. unfold da_div.
    rewrite da_map_tabulate. apply shape_ok_tabulate.
Qed.

(** X12. On a matrix and an area array whose labels are not repeated, the
    body of the bus loop fails on the bus index only: with a bus index
    that holds the bus it returns, since the labels it assigns to were
    taken from the coordinates of that matrix and the values have their
    shape; with a bus index that holds other buses only it raises
    [KeyError]; with a bus index that holds nothing it raises
    [ValueError]. *)
Theorem assign_bus_fails_only_on_unknown_bus (area : DataArray (option Q))
  (cells : list (Z * Z * string)) (m : Matrix) (bus : string) :
  NoDup (da_y area) -> NoDup (da_x area) ->
  NoDup (m_bus m) -> NoDup (m_y m) -> NoDup (m_x m) ->
  (In bus (m_bus m) -> exists m', assign_bus area cells m bus = ret m')
  /\ (m_bus m <> [] -> ~ In bus (m_bus m) ->
      assign_bus area cells m bus = raise KeyError)
  /\ (m_bus m = [] -> assign_bus area cells m bus = raise ValueError).
Proof.
  intros _ _ _ _ _.
  destruct (assign_bus_checks area cells m bus) as [Hy [Hx Hshape]].
  unfold assign_bus, loc_assign. rewrite Hy, Hx, Hshape.
  split; [|split].
  - intros Hb.
    assert (Hne : Nat.eqb (List.length (m_bus m)) 0 = false)
      by (destruct (m_bus m); [destruct Hb | reflexivity]).
    apply mem_str_In in Hb. rewrite Hne, Hb. cbn [andb negb].
    eexists. reflexivity.
  - intros Hne Hb.
    assert (Hlen : Nat.eqb (List.length (m_bus m)) 0 = false)
      by (destruct (m_bus m); [contradiction | reflexivity]).
    rewrite Hlen.
    destruct (mem_str bus (m_bus m)) eqn:E; [|reflexivity].
    apply mem_str_In in E. contradiction.
  - intros ->. reflexivity.
Qed.

Lemma assign_bus_fails_only_on_unknown_bus_witness :
  (exists m',
     assign_bus (building_area_in_cell shape_within features_three grid4)
       (map_cell_to_region shape_within grid4 zones_L_R)
       (empty_matrix ["L"%string; "R"%string] [0; 1]%Z [0; 1]%Z) "R" = ret m')
  /\ assign_bus (building_area_in_cell shape_within features_three grid4)
       (map_cell_to_region shape_within grid4 zones_L_R)
       (empty_matrix ["L"%string; "R"%string] [0; 1]%Z [0; 1]%Z) "Z1"
     = raise KeyError
  /\ assign_bus (building_area_in_cell shape_within features_three grid4)
       (map_cell_to_region shape_within grid4 zones_L_R)
       (empty_matrix [] [0; 1]%Z [0; 1]%Z) "R"
     = raise ValueError.
Proof.
  assert (Hy : NoDup (da_y (building_area_in_cell shape_within features_three grid4)))
    by apply NoDup_sortZ.
  assert (Hx : NoDup (da_x (building_area_in_cell shape_within features_three grid4)))
    by apply NoDup_sortZ.
  assert (Hb : NoDup ["L"%string; "R"%string])
    by (repeat constructor; simpl; intuition discriminate).
  assert (Hc : NoDup [0; 1]%Z)
    by (repeat constructor; simpl; intuition discriminate).
  split; [|split].
  - apply (assign_bus_fails_only_on_unknown_bus
             (building_area_in_cell shape_within features_three grid4)
             (map_cell_to_region shape_within grid4 zones_L_R)
             (empty_matrix ["L"%string; "R"%string] [0; 1]%Z [0; 1]%Z) "R"
             Hy Hx Hb Hc Hc).
    right. now left.
  - apply (assign_bus_fails_only_on_unknown_bus
             (building_area_in_cell shape_within features_three grid4)
             (map_cell_to_region shape_within grid4 zones_L_R)
             (empty_matrix ["L"%string; "R"%string] [0; 1]%Z [0; 1]%Z) "Z1"
             Hy Hx Hb Hc Hc).
    + discriminate.
    + simpl. intuition discriminate.
  - apply (assign_bus_fails_only_on_unknown_bus
             (building_area_in_cell shape_within features_three grid4)
             (map_cell_to_region shape_within grid4 zones_L_R)
             (empty_matrix [] [0; 1]%Z [0; 1]%Z) "R"
             Hy Hx (NoDup_nil string) Hc Hc).
    reflexivity.
Defined.

(* ------------------------------------------------------------------ *)
(** * The values of a slice *)

Lemma entry_zero_sum (geom : Type) (within : geom -> geom -> bool)
  (buildings : list (Building geom)) (grid : list (GridCell geom))
  (regions : list (Region geom)) (bus : string) (y x : Z) :
  (forall b, In b buildings -> 0 <= b_area b) ->
  da_sum (selected_data_of within buildings grid regions bus) == 0 ->
  entry (building_area_in_cell within buildings grid)
    (unique (map g_y grid)) (unique (map g_x grid))
    (map_cell_to_region within grid regions) bus y x = NaN.
Proof.
  intros Hnn HS.
  rewrite (entry_unfold geom within buildings grid regions bus).
  destruct (mem y _) eqn:Hy; [|reflexivity].
  destruct (mem x _) eqn:Hx; [|reflexivity]. cbn [andb].
  apply mem_In in Hy, Hx.
  pose proof (selected_sum_ge geom within buildings grid Hnn regions bus y x Hy Hx)
    as Hle.
  pose proof (cell_weight_nonneg geom within buildings grid Hnn y x) as Hge.
  unfold cell_weight in Hle, Hge.
  destruct (da_get _ y x) as [w|]; [|reflexivity]. cbn [nan_to_zero] in Hle, Hge.
  apply fdiv_zero_zero; [exact HS | lra].
Qed.

Lemma entry_range (geom : Type) (within : geom -> geom -> bool)
  (buildings : list (Building geom)) (grid : list (GridCell geom))
  (regions : list (Region geom)) (bus : string) (y x : Z) :
  (forall b, In b buildings -> 0 <= b_area b) ->
  entry (building_area_in_cell within buildings grid)
    (unique (map g_y grid)) (unique (map g_x grid))
    (map_cell_to_region within grid regions) bus y x = NaN
  \/ exists q,
       entry (building_area_in_cell within buildings grid)
         (unique (map g_y grid)) (unique (map g_x grid))
         (map_cell_to_region within grid regions) bus y x = Fin q
       /\ 0 <= q /\ q <= 1.
Proof.
  intros Hnn.
  pose proof (selected_sum_weights geom within buildings grid regions bus) as HSw.
  assert (HS0 : 0 <= da_sum (selected_data_of within buildings grid regions bus)).
  { rewrite HSw. apply Qsum_nonneg. intros y' _. apply Qsum_nonneg.
    intros x' _. now apply cell_weight_nonneg. }
  destruct (Qeq_dec (da_sum (selected_data_of within buildings grid regions bus)) 0)
    as [HS|HS]; [left; now apply entry_zero_sum|].
  rewrite (entry_unfold geom within buildings grid regions bus).
  destruct (mem y _) eqn:Hy; [|now left].
  destruct (mem x _) eqn:Hx; [|now left]. cbn [andb].
  apply mem_In in Hy, Hx.
  pose proof (selected_sum_ge geom within buildings grid Hnn regions bus y x Hy Hx)
    as Hle.
  pose proof (cell_weight_nonneg geom within buildings grid Hnn y x) as Hge.
  unfold cell_weight in Hle, Hge.
  destruct (da_get _ y x) as [w|]; [|now left]. cbn [nan_to_zero] in Hle, Hge.
  right. exists (w / da_sum (selected_data_of within buildings grid regions bus)).
  split; [now apply fdiv_finite|]. split.
  - apply Qle_shift_div_l; [lra | lra].
  - apply Qle_shift_div_r; [lra | lra].
Qed.

(** X4. With weights that are not negative, no entry of any slice is
    infinite or negative: each is NaN or a finite value between 0 and 1. *)
Theorem entries_between_zero_and_one (geom : Type)
  (within : geom -> geom -> bool) (buildings : list (Building geom))
  (grid : list (GridCell geom)) (regions : list (Region geom))
  (bus : string) :
  (forall b, In b buildings -> 0 <= b_area b) ->
  In bus (map r_name regions) ->
  exists m slice,
    computeZoneAvailability within buildings grid regions = ret m
    /\ m_slice m bus = Some slice
    /\ forall v, In v (concat slice) ->
         v = NaN \/ exists q, v = Fin q /\ 0 <= q /\ q <= 1.
Proof.
  intros Hnn Hb.
  destruct (computeZoneAvailability_slice geom within buildings grid regions bus Hb)
    as [m [Hm [_ [_ [_ [Hslice _]]]]]].
  exists m. eexists. split; [exact Hm|]. split; [exact Hslice|].
  intros v Hv. apply in_concat in Hv. destruct Hv as [row [Hrow Hv]].
  apply in_map_iff in Hrow. destruct Hrow as [y [<- _]].
  apply in_map_iff in Hv. destruct Hv as [x [<- _]].
  now apply entry_range.
Qed.

Lemma entries_between_zero_and_one_witness :
  exists m slice,
    computeZoneAvailability shape_within features_three grid4 zones_L_R = ret m
    /\ m_slice m "L" = Some slice
    /\ forall v, In v (concat slice) ->
         v = NaN \/ exists q, v = Fin q /\ 0 <= q /\ q <= 1.
Proof.
  apply (entries_between_zero_and_one shape shape_within features_three grid4
           zones_L_R "L").
  - intros b [<-|[<-|[<-|[]]]]; vm_compute; discriminate.
  - now left.
Defined.

(** X5. With weights that are not negative, the slice of a bus is one of
    two things: when the selection of the bus sums to zero it has no
    defined value at all, and otherwise its defined values sum to 1. *)
Theorem slice_is_undefined_or_normalised (geom : Type)
  (within : geom -> geom -> bool) (buildings : list (Building geom))
  (grid : list (GridCell geom)) (regions : list (Region geom))
  (bus : string) :
  (forall b, In b buildings -> 0 <= b_area b) ->
  In bus (map r_name regions) ->
  exists m slice,
    computeZoneAvailability within buildings grid regions = ret m
    /\ m_slice m bus = Some slice
    /\ ((da_sum (selected_data_of within buildings grid regions bus) == 0
         /\ defined_values slice = [])
        \/ (0 < da_sum (selected_data_of within buildings grid regions bus)
            /\ Qsum (map fin_part (defined_values slice)) == 1)).
Proof.
  intros Hnn Hb.
  destruct (computeZoneAvailability_slice geom within buildings grid regions bus Hb)
    as [m [Hm [_ [_ [_ [Hslice _]]]]]].
  exists m. eexists. split; [exact Hm|]. split; [exact Hslice|].
  pose proof (selected_sum_weights geom within buildings grid regions bus) as HSw.
  assert (HS0 : 0 <= da_sum (selected_data_of within buildings grid regions bus)).
  { rewrite HSw. apply Qsum_nonneg. intros y' _. apply Qsum_nonneg.
    intros x' _. now apply cell_weight_nonneg. }
  destruct (Qeq_dec (da_sum (selected_data_of within buildings grid regions bus)) 0)
    as [HS|HS].
  - left. split; [exact HS|]. apply all_nan_defined. apply table_all_nan.
    intros y x. now apply entry_zero_sum.
  - right. split; [lra|]. unfold defined_values. rewrite Qsum_defined.
    now apply slice_sum_one.
Qed.

Lemma slice_is_undefined_or_normalised_witness :
  exists m slice,
    computeZoneAvailability shape_within features_three grid4 zones_L_R = ret m
    /\ m_slice m "L" = Some slice
    /\ ((da_sum (selected_data_of shape_within features_three grid4 zones_L_R "L") == 0
         /\ defined_values slice = [])
        \/ (0 < da_sum (selected_data_of shape_within features_three grid4 zones_L_R "L")
            /\ Qsum (map fin_part (defined_values slice)) == 1)).
Proof.
  apply (slice_is_undefined_or_normalised shape shape_within features_three
           grid4 zones_L_R "L").
  - intros b [<-|[<-|[<-|[]]]]; vm_compute; discriminate.
  - now left.
Defined.

Lemma row_on_key (geom : Type) (rows : list (Building geom * GridCell geom))
  (y x : Z) :
  has_key rows (y, x) = true <->
  exists b c, In (b, c) rows /\ g_x c = x /\ g_y c = y.
Proof.
  rewrite has_key_In, in_map_iff. split.
  - intros [[b c] [E Hin]]. unfold row_key in E. simpl in E.
    injection E as Ey Ex. exists b, c. tauto.
  - intros [b [c [Hin [Ex Ey]]]]. exists (b, c). split; [|assumption].
    unfold row_key. simpl. congruence.
Qed.




(* ------------------------------------------------------------------ *)
(** * Zones and features that do not matter *)

Lemma filter_map_flat_map (A B C : Type) (p : C -> bool) (g : B -> C)
  (h : A -> list B) (l : list A) :
  filter p (map g (flat_map h l)) = flat_map (fun a => filter p (map g (h a))) l.
Proof.
  induction l as [|a t IH]; [reflexivity|].
  cbn [flat_map]. now rewrite map_app, filter_app, IH.
Qed.

Lemma cell_list_other_region (geom : Type) (within : geom -> geom -> bool)
  (grid : list (GridCell geom)) (l1 l2 : list (Region geom))
  (r : Region geom) (bus : string) :
  r_name r <> bus ->
  cell_list (map_cell_to_region within grid (l1 ++ r :: l2)) bus =
  cell_list (map_cell_to_region within grid (l1 ++ l2)) bus.
Proof.
  intros Hr. unfold cell_list, map_cell_to_region, sjoin. f_equal.
  assert (E : String.eqb (r_name r) bus = false) by now apply String.eqb_neq.
  rewrite !filter_map_flat_map. apply flat_map_ext. intros c.
  rewrite (filter_app _ l1 (r :: l2)), (filter_app _ l1 l2).
  rewrite !map_app, !filter_app. f_equal.
  cbn [filter]. destruct (within (g_geometry c) (r_geometry r)); [|reflexivity].
  cbn [map filter fst snd]. now rewrite E.
Qed.

(** X7. The slice of a bus does not depend on the regions of other names:
    with a region of another name added anywhere in the collection, the
    slice of the bus is the same. *)
Theorem other_regions_do_not_matter (geom : Type)
  (within : geom -> geom -> bool) (buildings : list (Building geom))
  (grid : list (GridCell geom)) (l1 l2 : list (Region geom))
  (r : Region geom) (bus : string) :
  r_name r <> bus ->
  In bus (map r_name (l1 ++ l2)) ->
  exists m m',
    computeZoneAvailability within buildings grid (l1 ++ l2) = ret m
    /\ computeZoneAvailability within buildings grid (l1 ++ r :: l2) = ret m'
    /\ m_slice m' bus = m_slice m bus.
Proof.
  intros Hr Hb.
  assert (Hb' : In bus (map r_name (l1 ++ r :: l2))).
  { rewrite map_app in *. apply in_app_or in Hb. apply in_or_app.
    destruct Hb; [now left | right; now right]. }
  destruct (computeZoneAvailability_slice geom within buildings grid (l1 ++ l2)
              bus Hb) as [m [Hm [_ [_ [_ [Hs _]]]]]].
  destruct (computeZoneAvailability_slice geom within buildings grid
              (l1 ++ r :: l2) bus Hb') as [m' [Hm' [_ [_ [_ [Hs' _]]]]]].
  exists m, m'. split; [exact Hm|]. split; [exact Hm'|].
  rewrite Hs, Hs'. f_equal.
  apply map_ext. intros y. apply map_ext. intros x.
  unfold entry, selected_for.
  now rewrite (cell_list_other_region geom within grid l1 l2 r bus Hr).
Qed.

Lemma other_regions_do_not_matter_witness :
  exists m m',
    computeZoneAvailability shape_within features_three grid4
      ([mkRegion "L" (squares 0 0 2 4 ++ squares 2 2 2 2)] ++ []) = ret m
    /\ computeZoneAvailability shape_within features_three grid4
         ([mkRegion "L" (squares 0 0 2 4 ++ squares 2 2 2 2)]
            ++ mkRegion "R" (squares 2 0 2 2) :: []) = ret m'
    /\ m_slice m' "L" = m_slice m "L".
Proof.
  apply (other_regions_do_not_matter shape shape_within features_three grid4
           [mkRegion "L" (squares 0 0 2 4 ++ squares 2 2 2 2)] []
           (mkRegion "R" (squares 2 0 2 2)) "L").
  - vm_compute. discriminate.
  - now left.
Defined.

Lemma unjoined_rows (geom : Type) (within : geom -> geom -> bool)
  (grid : list (GridCell geom)) (b : Building geom) :
  joined_somewhere within grid b = false ->
  filter (fun c => within (b_geometry b) (g_geometry c)) grid = [].
Proof.
  unfold joined_somewhere. induction grid as [|c t IH]; simpl; [reflexivity|].
  destruct (within (b_geometry b) (g_geometry c)); simpl; [discriminate|].
  exact IH.
Qed.

(** X8. A building that lies within no cell of the grid, because it lies
    across a cell boundary or off the grid, has no effect: leaving out all
    such buildings gives the same joined rows, the same area per cell and
    the same matrix. *)
Theorem unjoined_buildings_are_ignored (geom : Type)
  (within : geom -> geom -> bool) (buildings : list (Building geom))
  (grid : list (GridCell geom)) (regions : list (Region geom)) :
  buildings_in_cells within (filter (joined_somewhere within grid) buildings) grid
  = buildings_in_cells within buildings grid
  /\ building_area_in_cell within
       (filter (joined_somewhere within grid) buildings) grid
     = building_area_in_cell within buildings grid
  /\ computeZoneAvailability within
       (filter (joined_somewhere within grid) buildings) grid regions
     = computeZoneAvailability within buildings grid regions.
Proof.
  assert (H : buildings_in_cells within
                (filter (joined_somewhere within grid) buildings) grid
              = buildings_in_cells within buildings grid).
  { unfold buildings_in_cells, sjoin.
    induction buildings as [|b t IH]; [reflexivity|].
    cbn [filter flat_map].
    destruct (joined_somewhere within grid b) eqn:E.
    - cbn [flat_map]. now rewrite IH.
    - rewrite (unjoined_rows geom within grid b E). exact IH. }
  split; [exact H|].
  unfold computeZoneAvailability, building_area_in_cell. rewrite H. now split.
Qed.

(* ------------------------------------------------------------------ *)
(** * The area that reaches the cells *)

Lemma weight_at_cons (geom : Type) (r : Building geom * GridCell geom)
  (t : list (Building geom * GridCell geom)) (k : Z * Z) :
  weight_at (r :: t) k ==
  (if key_eqb (row_key r) k then b_area (fst r) else 0) + weight_at t k.
Proof.
  unfold weight_at, rows_at. cbn [filter].
  destruct (key_eqb (row_key r) k); cbn [map Qsum]; ring.
Qed.

Lemma key_indicator_sum (ys xs : list Z) (ky kx : Z) (a : Q) :
  NoDup ys -> NoDup xs -> In ky ys -> In kx xs ->
  Qsum (map (fun y =>
          Qsum (map (fun x => if key_eqb (ky, kx) (y, x) then a else 0) xs)) ys)
  == a.
Proof.
  intros Hys Hxs Hky Hkx.
  rewrite <- (Qsum_single (fun _ => a) ky ys Hys Hky).
  apply Qsum_ext. intros y _. unfold key_eqb. cbn [fst snd].
  rewrite (Z.eqb_sym ky y). destruct (Z.eqb y ky).
  - rewrite <- (Qsum_single (fun _ => a) kx xs Hxs Hkx).
    apply Qsum_ext. intros x _. cbn [andb]. now rewrite (Z.eqb_sym kx x).
  - apply Qsum_zero. reflexivity.
Qed.

Lemma total_weight (geom : Type) (ys xs : list Z)
  (rows : list (Building geom * GridCell geom)) :
  NoDup ys -> NoDup xs ->
  (forall r, In r rows -> In (g_y (snd r)) ys /\ In (g_x (snd r)) xs) ->
  Qsum (map (fun y => Qsum (map (fun x => weight_at rows (y, x)) xs)) ys)
  == Qsum (map (fun r => b_area (fst r)) rows).
Proof.
  intros Hys Hxs. induction rows as [|r t IH]; intros Hin.
  - cbn [map Qsum]. apply Qsum_zero. intros y _. apply Qsum_zero. reflexivity.
  - cbn [map Qsum]. rewrite <- IH by (intros; apply Hin; now right).
    destruct (Hin r (or_introl eq_refl)) as [Hy Hx].
    rewrite <- (key_indicator_sum ys xs (g_y (snd r)) (g_x (snd r))
                  (b_area (fst r)) Hys Hxs Hy Hx) at 1.
    rewrite <- Qsum_plus. apply Qsum_ext. intros y _.
    rewrite <- Qsum_plus. apply Qsum_ext. intros x _.
    apply weight_at_cons.
Qed.

Lemma joined_area (geom : Type) (b : Building geom) (l : list (GridCell geom)) :
  Qsum (map (fun r : Building geom * GridCell geom => b_area (fst r))
            (map (pair b) l))
  == inject_Z (Z.of_nat (List.length l)) * b_area b.
Proof.
  induction l as [|c t IH].
  - cbn. ring.
  - cbn [map Qsum List.length fst]. rewrite IH, Nat2Z.inj_succ.
    unfold Z.succ. rewrite inject_Z_plus. ring.
Qed.

(** X9. Grouping and densifying lose and invent no area: the entries of
    the area array add up to the area column of the joined rows, which is
    the area of every building once for each cell it lies within. *)
Theorem total_area_is_kept (geom : Type) (within : geom -> geom -> bool)
  (buildings : list (Building geom)) (grid : list (GridCell geom)) :
  da_sum (building_area_in_cell within buildings grid)
  == Qsum (map (fun r => b_area (fst r))
               (buildings_in_cells within buildings grid))
  /\ da_sum (building_area_in_cell within buildings grid)
     == Qsum (map (fun b =>
                inject_Z (Z.of_nat (List.length (assigned_cells within b grid)))
                * b_area b) buildings).
Proof.
  assert (H1 : da_sum (building_area_in_cell within buildings grid)
               == Qsum (map (fun r => b_area (fst r))
                            (buildings_in_cells within buildings grid))).
  { destruct (area_NoDup geom (buildings_in_cells within buildings grid))
      as [Hys Hxs].
    rewrite <- (total_weight geom _ _ _ Hys Hxs).
    - unfold da_sum, building_area_in_cell. unfold to_xarray at 1.
      cbn [da_values tabulate]. rewrite Qsum_table.
      apply Qsum_ext. intros y _. apply Qsum_ext. intros x _.
      rewrite lookup_groupby, has_key_rows_at. unfold weight_at.
      now destruct (rows_at _ (y, x)).
    - intros [b c] Hr. cbn [snd]. split.
      + apply to_xarray_y. exists (g_x c). apply row_on_key. eauto.
      + apply to_xarray_x. exists (g_y c). apply row_on_key. eauto. }
  split; [exact H1|]. rewrite H1. clear H1.
  unfold buildings_in_cells, sjoin, assigned_cells.
  induction buildings as [|b t IH]; [reflexivity|].
  cbn [flat_map map Qsum]. rewrite map_app, Qsum_app, IH, joined_area.
  reflexivity.
Qed.

(* ------------------------------------------------------------------ *)
(** * Rescaling and reordering the features *)

Lemma fdiv_pos_zero (w s : Q) : s == 0 -> 0 < w -> fdiv (Some w) s = PInf.
Proof.
  intros Hs Hw. unfold fdiv.
  apply Qeq_bool_iff in Hs. rewrite Hs.
  destruct (Qeq_bool w 0) eqn:E.
  - apply Qeq_bool_iff in E. lra.
  - destruct (Qle_bool 0 w) eqn:E'; [reflexivity|].
    assert (H : Qle_bool 0 w = true) by (apply Qle_bool_iff; lra).
    congruence.
Qed.

Lemma fdiv_neg_zero (w s : Q) : s == 0 -> w < 0 -> fdiv (Some w) s = NInf.
Proof.
  intros Hs Hw. unfold fdiv.
  apply Qeq_bool_iff in Hs. rewrite Hs.
  destruct (Qeq_bool w 0) eqn:E.
  - apply Qeq_bool_iff in E. lra.
  - destruct (Qle_bool 0 w) eqn:E'; [|reflexivity].
    apply Qle_bool_iff in E'. lra.
Qed.

Lemma fdiv_scaled (k : Q) (u v : option Q) (s s' : Q) :
  0 < k -> scaled k u v -> s' == k * s -> feq (fdiv u s) (fdiv v s').
Proof.
  intros Hk Huv Hs.
  destruct u as [w|], v as [w'|]; cbn [scaled] in Huv; try contradiction;
    [|exact I].
  destruct (Qeq_dec s 0) as [E|E].
  - assert (E' : s' == 0) by (rewrite Hs, E; ring).
    destruct (Q_dec w 0) as [[Hlt|Hgt]|Heq].
    + assert (w' < 0).
      { rewrite Huv. setoid_replace 0 with (k * 0) by ring.
        now apply Qmult_lt_l. }
      rewrite (fdiv_neg_zero w s E Hlt), (fdiv_neg_zero w' s' E'); [exact I|assumption].
    + assert (0 < w').
      { rewrite Huv. setoid_replace 0 with (k * 0) by ring.
        now apply Qmult_lt_l. }
      rewrite (fdiv_pos_zero w s E Hgt), (fdiv_pos_zero w' s' E'); [exact I|assumption].
    + assert (w' == 0) by (rewrite Huv, Heq; ring).
      rewrite (fdiv_zero_zero w s E Heq), (fdiv_zero_zero w' s' E'); [exact I|assumption].
  - assert (E' : ~ s' == 0).
    { intros H0. rewrite Hs in H0. apply Qmult_integral in H0.
      destruct H0 as [H0|H0]; [lra | contradiction]. }
    rewrite (fdiv_finite w s E), (fdiv_finite w' s' E'). cbn [feq].
    rewrite Huv, Hs. field. split; [exact E | intros H0; lra].
Qed.

Lemma sum_scaled (A : Type) (k : Q) (f g : A -> Q) (l : list A) :
  (forall a, In a l -> g a == k * f a) ->
  Qsum (map g l) == k * Qsum (map f l).
Proof.
  intros H. rewrite (Qsum_ext A g (fun a => f a * k) l).
  - rewrite Qsum_scale. ring.
  - intros a Ha. rewrite (H a Ha). ring.
Qed.

(** Two area arrays with the same coordinates whose entries are in the
    ratio [k] give the same entry of the matrix. *)
Lemma entry_scaled (a a' : DataArray (option Q)) (Y X : list Z)
  (cells : list (Z * Z * string)) (bus : string) (k : Q) (y x : Z) :
  0 < k ->
  da_y a = da_y a' -> da_x a = da_x a' ->
  (forall y x, scaled k (da_get a y x) (da_get a' y x)) ->
  feq (entry a Y X cells bus y x) (entry a' Y X cells bus y x).
Proof.
  intros Hk Hy Hx Hrel. unfold entry. cbv zeta.
  destruct (where_drop_coords a a'
              (mask_and (isin X (map fst (cell_list cells bus)))
                        (isin Y (map snd (cell_list cells bus)))) Hy Hx)
    as [Hsy Hsx].
  fold (selected_for a Y X cells bus) in Hsy, Hsx.
  fold (selected_for a' Y X cells bus) in Hsy, Hsx.
  rewrite <- Hsy, <- Hsx.
  destruct (mem y _ && mem x _); [|exact I].
  apply fdiv_scaled with (k := k); [exact Hk | apply Hrel |].
  unfold selected_for. rewrite !selected_sum.
  fold (selected_for a Y X cells bus). fold (selected_for a' Y X cells bus).
  rewrite <- Hsy, <- Hsx.
  apply sum_scaled. intros y' _. apply sum_scaled. intros x' _.
  specialize (Hrel y' x').
  destruct (da_get a y' x'), (da_get a' y' x'); cbn [scaled nan_to_zero] in *;
    try contradiction; [exact Hrel | ring].
Qed.

(** Area arrays of two lists of joined rows with the same keys have the
    same coordinates and the same missing entries. *)
Lemma same_keys_same_coords (geom : Type)
  (rows rows' : list (Building geom * GridCell geom)) :
  map row_key rows' = map row_key rows ->
  da_y (to_xarray (groupby_sum_area rows)) =
    da_y (to_xarray (groupby_sum_area rows'))
  /\ da_x (to_xarray (groupby_sum_area rows)) =
       da_x (to_xarray (groupby_sum_area rows'))
  /\ forall k, has_key rows' k = has_key rows k.
Proof.
  intros Hk. unfold to_xarray, groupby_sum_area.
  cbn [da_y da_x tabulate]. rewrite !map_map. cbn [fst snd]. rewrite Hk.
  split; [reflexivity|]. split; [reflexivity|].
  intros k. apply eq_true_iff_eq. now rewrite !has_key_In, Hk.
Qed.

Lemma scaled_rows (geom : Type) (within : geom -> geom -> bool) (k : Q)
  (buildings : list (Building geom)) (grid : list (GridCell geom)) :
  buildings_in_cells within (map (scale_area k) buildings) grid =
  map (fun r => (scale_area k (fst r), snd r))
      (buildings_in_cells within buildings grid).
Proof.
  unfold buildings_in_cells, sjoin.
  induction buildings as [|b t IH]; [reflexivity|].
  cbn [map flat_map]. rewrite map_app, IH. f_equal.
  rewrite map_map. reflexivity.
Qed.

Lemma scaled_weight (geom : Type) (k : Q)
  (rows : list (Building geom * GridCell geom)) (key : Z * Z) :
  weight_at (map (fun r => (scale_area k (fst r), snd r)) rows) key
  == k * weight_at rows key.
Proof.
  induction rows as [|r t IH].
  - unfold weight_at. cbn. ring.
  - cbn [map]. rewrite !weight_at_cons, IH.
    change (row_key (scale_area k (fst r), snd r)) with (row_key r).
    destruct (key_eqb (row_key r) key); cbn [fst scale_area b_area]; ring.
Qed.

(** X10. The unit of area does not matter: with every weight multiplied by
    the same positive factor, the matrix has the same coordinates and, bus
    by bus and cell by cell, the same entries. *)
Theorem scaling_all_weights_changes_nothing (geom : Type)
  (within : geom -> geom -> bool) (k : Q) (buildings : list (Building geom))
  (grid : list (GridCell geom)) (regions : list (Region geom)) :
  0 < k ->
  exists m m',
    computeZoneAvailability within buildings grid regions = ret m
    /\ computeZoneAvailability within (map (scale_area k) buildings) grid regions
       = ret m'
    /\ m_bus m' = m_bus m /\ m_y m' = m_y m /\ m_x m' = m_x m
    /\ forall bus y x, same_entry (m_sel m bus y x) (m_sel m' bus y x).
Proof.
  intros Hk. unfold computeZoneAvailability.
  destruct (region_matrix_spec geom within
              (building_area_in_cell within buildings grid) grid regions)
    as [G [HG Hval]].
  destruct (region_matrix_spec geom within
              (building_area_in_cell within (map (scale_area k) buildings) grid)
              grid regions) as [G' [HG' Hval']].
  do 2 eexists. split; [exact HG|]. split; [exact HG'|].
  cbn [m_bus m_y m_x tab3]. repeat split.
  intros bus y x. rewrite !m_sel_tab3.
  destruct (mem_str bus (map r_name regions)) eqn:Hb; [|exact I].
  cbn [andb]. destruct (mem y (unique (map g_y grid))); [|exact I].
  cbn [andb]. destruct (mem x (unique (map g_x grid))); [|exact I].
  cbn [same_entry]. apply mem_str_In in Hb. rewrite (Hval bus y x Hb), (Hval' bus y x Hb).
  unfold building_area_in_cell. rewrite scaled_rows.
  destruct (same_keys_same_coords geom (buildings_in_cells within buildings grid)
              (map (fun r => (scale_area k (fst r), snd r))
                   (buildings_in_cells within buildings grid)))
    as [Hy [Hx Hkey]].
  { rewrite map_map. reflexivity. }
  apply entry_scaled with (k := k); try assumption.
  intros y' x'. rewrite !da_get_to_xarray, Hkey.
  destruct (has_key _ (y', x')); cbn [scaled]; [|exact I].
  apply scaled_weight.
Qed.

Lemma scaling_all_weights_changes_nothing_witness :
  exists m m',
    computeZoneAvailability shape_within features_three grid4 zones_L_R = ret m
    /\ computeZoneAvailability shape_within
         (map (scale_area (1 # 1000000)) features_three) grid4 zones_L_R = ret m'
    /\ m_bus m' = m_bus m /\ m_y m' = m_y m /\ m_x m' = m_x m
    /\ forall bus y x, same_entry (m_sel m bus y x) (m_sel m' bus y x).
Proof.
  apply (scaling_all_weights_changes_nothing shape shape_within (1 # 1000000)
           features_three grid4 zones_L_R).
  reflexivity.
Defined.

Lemma sorted_same_elements (l l' : list Z) :
  StronglySorted Z.lt l -> StronglySorted Z.lt l' ->
  (forall z, In z l <-> In z l') -> l = l'.
Proof.
  intros Hl. revert l'. induction Hl as [|a t Ht IH Ha]; intros l' Hl' Hin.
  - destruct l' as [|a' t']; [reflexivity|].
    exfalso. apply (Hin a'). now left.
  - destruct Hl' as [|a' t' Ht' Ha'].
    + exfalso. apply (Hin a). now left.
    + rewrite Forall_forall in Ha, Ha'.
      assert (E : a = a').
      { destruct (proj1 (Hin a) (or_introl eq_refl)) as [E|Hat']; [now symmetry|].
        destruct (proj2 (Hin a') (or_introl eq_refl)) as [E|Ha't]; [assumption|].
        specialize (Ha _ Ha't). specialize (Ha' _ Hat'). lia. }
      subst a'. f_equal. apply IH; [assumption|].
      intros z. split; intros Hz.
      * destruct (proj1 (Hin z) (or_intror Hz)) as [E|H]; [|assumption].
        specialize (Ha _ Hz). lia.
      * destruct (proj2 (Hin z) (or_intror Hz)) as [E|H]; [|assumption].
        specialize (Ha' _ Hz). lia.
Qed.

Lemma sortZ_same_elements (l l' : list Z) :
  (forall z, In z l <-> In z l') ->
  sort_unique Z.compare l = sort_unique Z.compare l'.
Proof.
  intros H. apply sorted_same_elements; try apply sortZ_sorted.
  intros z. now rewrite !sortZ_In.
Qed.

Lemma same_key_set_same_coords (geom : Type)
  (rows rows' : list (Building geom * GridCell geom)) :
  (forall k, In k (map row_key rows) <-> In k (map row_key rows')) ->
  da_y (to_xarray (groupby_sum_area rows)) =
    da_y (to_xarray (groupby_sum_area rows'))
  /\ da_x (to_xarray (groupby_sum_area rows)) =
       da_x (to_xarray (groupby_sum_area rows'))
  /\ forall k, has_key rows' k = has_key rows k.
Proof.
  intros Hk.
  assert (Hhk : forall k, has_key rows' k = has_key rows k).
  { intros k. apply eq_true_iff_eq. rewrite !has_key_In. symmetry. apply Hk. }
  split; [|split; [|exact Hhk]].
  - apply sorted_same_elements; [apply sortZ_sorted | apply sortZ_sorted |].
    intros y. rewrite !to_xarray_y. split; intros [x H]; exists x; congruence.
  - apply sorted_same_elements; [apply sortZ_sorted | apply sortZ_sorted |].
    intros x. rewrite !to_xarray_x. split; intros [y H]; exists y; congruence.
Qed.

Lemma weight_perm (geom : Type)
  (rows rows' : list (Building geom * GridCell geom)) (k : Z * Z) :
  Permutation rows rows' -> weight_at rows k == weight_at rows' k.
Proof.
  induction 1 as [|r t t' _ IH|r1 r2 t|t1 t2 t3 _ IH1 _ IH2].
  - reflexivity.
  - now rewrite !weight_at_cons, IH.
  - rewrite !weight_at_cons. ring.
  - now rewrite IH1.
Qed.

(** X11. The order of the buildings does not matter: a reordered list of
    buildings gives a matrix with the same coordinates and, bus by bus and
    cell by cell, the same entries. *)
Theorem order_of_buildings_changes_nothing (geom : Type)
  (within : geom -> geom -> bool) (buildings buildings' : list (Building geom))
  (grid : list (GridCell geom)) (regions : list (Region geom)) :
  Permutation buildings buildings' ->
  exists m m',
    computeZoneAvailability within buildings grid regions = ret m
    /\ computeZoneAvailability within buildings' grid regions = ret m'
    /\ m_bus m' = m_bus m /\ m_y m' = m_y m /\ m_x m' = m_x m
    /\ forall bus y x, same_entry (m_sel m bus y x) (m_sel m' bus y x).
Proof.
  intros Hperm. unfold computeZoneAvailability.
  destruct (region_matrix_spec geom within
              (building_area_in_cell within buildings grid) grid regions)
    as [G [HG Hval]].
  destruct (region_matrix_spec geom within
              (building_area_in_cell within buildings' grid) grid regions)
    as [G' [HG' Hval']].
  do 2 eexists. split; [exact HG|]. split; [exact HG'|].
  cbn [m_bus m_y m_x tab3]. repeat split.
  intros bus y x. rewrite !m_sel_tab3.
  destruct (mem_str bus (map r_name regions)) eqn:Hb; [|exact I].
  cbn [andb]. destruct (mem y (unique (map g_y grid))); [|exact I].
  cbn [andb]. destruct (mem x (unique (map g_x grid))); [|exact I].
  cbn [same_entry]. apply mem_str_In in Hb.
  rewrite (Hval bus y x Hb), (Hval' bus y x Hb).
  assert (Hrows : Permutation (buildings_in_cells within buildings grid)
                              (buildings_in_cells within buildings' grid)).
  { unfold buildings_in_cells, sjoin. now apply Permutation_flat_map. }
  unfold building_area_in_cell.
  destruct (same_key_set_same_coords geom
              (buildings_in_cells within buildings grid)
              (buildings_in_cells within buildings' grid))
    as [Hy [Hx Hkey]].
  { intros k. split; apply Permutation_in; apply Permutation_map;
      [exact Hrows | now apply Permutation_sym]. }
  apply entry_scaled with (k := 1); try assumption; [reflexivity|].
  intros y' x'. rewrite !da_get_to_xarray, Hkey.
  destruct (has_key _ (y', x')); cbn [scaled]; [|exact I].
  rewrite <- (weight_perm geom _ _ (y', x') Hrows). ring.
Qed.

Lemma order_of_buildings_changes_nothing_witness :
  exists m m',
    computeZoneAvailability shape_within
      [building [(0, 0)%Z]; building [(2, 0)%Z]; building [(3, 3)%Z]]
      grid4 zones_L_R = ret m
    /\ computeZoneAvailability shape_within
         [building [(2, 0)%Z]; building [(0, 0)%Z]; building [(3, 3)%Z]]
         grid4 zones_L_R = ret m'
    /\ m_bus m' = m_bus m /\ m_y m' = m_y m /\ m_x m' = m_x m
    /\ forall bus y x, same_entry (m_sel m bus y x) (m_sel m' bus y x).
Proof.
  apply (order_of_buildings_changes_nothing shape shape_within
           [building [(0, 0)%Z]; building [(2, 0)%Z]; building [(3, 3)%Z]]
           [building [(2, 0)%Z]; building [(0, 0)%Z]; building [(3, 3)%Z]]
           grid4 zones_L_R).
  apply perm_swap.
Defined.
